(** * A CRUD dashboard over two PostgreSQL tables (app.py)

    Shallow embedding of the data access layer of [app.py]: the connection
    pool memoised by [st.cache_resource], the context manager
    [get_db_connection], [init_database] and the eight data access
    functions, and, of the presentation layer, the two "View All" tabs and
    what the forms and the delete buttons do when submitted.

    The code talks to PostgreSQL through psycopg2, to the browser through
    Streamlit and to pandas; what it relies on is modelled with it: the two
    tables as the DDL of [init_database] declares them (column types, NOT
    NULL, UNIQUE, the SERIAL sequences), connections with their
    transactions, the [SimpleConnectionPool], the elements Streamlit
    displays, DataFrames and [to_csv].

    Python code is written in a state-and-exception monad over a [world];
    every function of [app.py] keeps its name.  Strings are strings of
    characters; DECIMAL(10, 2) amounts are exact, in hundredths.

    Definitions come first, then the theorems: C1 to C10, then X1 to X23. *)

From Stdlib Require Import ZArith Ascii String List Lia Permutation Sorted.
From stdpp Require Import base decidable option list gmap strings sorting relations pretty.

Local Open Scope Z_scope.

(** ** Python values of the data access layer *)

(** A Python [str] or [None]. *)
Definition pystr := option string.

(** psycopg2 / pandas exception classes met by the code; all of them are
    subclasses of [Exception]. *)
Inductive exn_class :=
| IntegrityError   (* unique or not-null violation *)
| DataError        (* value does not fit the column type *)
| OperationalError (* the server cannot be reached *)
| InterfaceError   (* the connection is already closed *)
| InternalError    (* statement in an aborted transaction *)
| PoolError        (* psycopg2.pool.PoolError *)
| DatabaseError.   (* pandas.errors.DatabaseError *)

(** An exception object; [exn_str] is [str(e)]. *)
Record exn := Exn { exn_cls : exn_class; exn_str : string }.

Definition is_IntegrityError (e : exn) : bool :=
  match exn_cls e with IntegrityError => true | _ => false end.

(** ** The two tables (DDL of [init_database], app.py lines 47-69) *)

(** [datetime.now()] and the TIMESTAMP columns. *)
Record datetime := Datetime {
  year : nat; month : nat; day : nat;
  hour : nat; minute : nat; second : nat; microsecond : nat
}.

(** customers (id SERIAL PRIMARY KEY, name VARCHAR(255) NOT NULL,
    email VARCHAR(255) UNIQUE NOT NULL, phone VARCHAR(50),
    city VARCHAR(100), created_date TIMESTAMP). *)
Record customer := Customer {
  c_id : Z;
  c_name : string;
  c_email : string;
  c_phone : option string;
  c_city : option string;
  c_created_date : datetime
}.

(** inventory (id SERIAL PRIMARY KEY, product_name VARCHAR(255) NOT NULL,
    category VARCHAR(100), quantity INTEGER, price DECIMAL(10, 2),
    last_updated TIMESTAMP).  A price is an amount in hundredths. *)
Record item := Item {
  i_id : Z;
  i_product_name : string;
  i_category : option string;
  i_quantity : option Z;
  i_price : option Z;
  i_last_updated : datetime
}.

Record tables := Tables {
  customers : list customer;
  inventory : list item
}.

(** *** Column types *)

Definition dquote : string := String (ascii_of_nat 34) EmptyString.
Definition newline : string := String (ascii_of_nat 10) EmptyString.

Definition all_spaces (s : string) : bool :=
  forallb (fun a => Ascii.eqb a " "%char) (list_ascii_of_string s).

(** Assignment to a VARCHAR(n) column: NULL passes; a longer string is an
    error unless the excess characters are all spaces, in which case it is
    truncated to n characters. *)
Definition varchar (n : nat) (v : pystr) : exn + option string :=
  match v with
  | None => inr None
  | Some s =>
      if (String.length s <=? n)%nat then inr (Some s)
      else if all_spaces (substring n (String.length s - n) s)
           then inr (Some (substring 0 n s))
           else inl (Exn DataError
                  ("value too long for type character varying(" +:+ pretty n +:+ ")" +:+ newline))
  end.

(** Assignment to an INTEGER column. *)
Definition int4 (v : Z) : exn + Z :=
  if (-2147483648 <=? v) && (v <=? 2147483647) then inr v
  else inl (Exn DataError ("integer out of range" +:+ newline)).

(** Assignment to a DECIMAL(10, 2) column, the amount given in hundredths. *)
Definition decimal_10_2 (v : Z) : exn + Z :=
  if Z.abs v <? 10000000000 then inr v
  else inl (Exn DataError ("numeric field overflow" +:+ newline)).

Definition fits (n : nat) (v : pystr) : Prop :=
  match v with None => True | Some s => (String.length s <= n)%nat end.

(** *** Constraint violations *)

Definition not_null_violation (col rel : string) : exn :=
  Exn IntegrityError
    ("null value in column " +:+ dquote +:+ col +:+ dquote +:+ " of relation "
       +:+ dquote +:+ rel +:+ dquote +:+ " violates not-null constraint" +:+ newline).

Definition unique_violation (constraint col value : string) : exn :=
  Exn IntegrityError
    ("duplicate key value violates unique constraint " +:+ dquote +:+ constraint
       +:+ dquote +:+ newline +:+ "DETAIL:  Key (" +:+ col +:+ ")=(" +:+ value
       +:+ ") already exists." +:+ newline).

Definition has_customer_id (id : Z) (rows : list customer) : bool :=
  existsb (fun r => c_id r =? id) rows.

Definition has_email (email : string) (rows : list customer) : bool :=
  existsb (fun r => String.eqb (c_email r) email) rows.

Definition has_item_id (id : Z) (rows : list item) : bool :=
  existsb (fun r => i_id r =? id) rows.

(** *** Statements

    The statements the application sends, with their bound parameters. *)
Inductive stmt :=
| CreateTables
| InsertCustomer (name email phone city : pystr) (created_date : datetime)
| UpdateCustomer (name email phone city : pystr) (customer_id : Z)
| DeleteCustomer (customer_id : Z)
| InsertInventory (product_name category : pystr) (quantity price : Z) (last_updated : datetime)
| UpdateInventory (product_name category : pystr) (quantity price : Z) (last_updated : datetime)
                  (item_id : Z)
| DeleteInventory (item_id : Z)
| SelectCustomers
| SelectInventory.

(** The values of a customers statement, converted to the column types. *)
Definition customer_values (name email phone city : pystr)
  : exn + (option string * option string * option string * option string) :=
  match varchar 255 name with
  | inl e => inl e
  | inr n =>
    match varchar 255 email with
    | inl e => inl e
    | inr m =>
      match varchar 50 phone with
      | inl e => inl e
      | inr p =>
        match varchar 100 city with
        | inl e => inl e
        | inr c => inr (n, m, p, c)
        end
      end
    end
  end.

Definition item_values (product_name category : pystr) (quantity price : Z)
  : exn + (option string * option string * Z * Z) :=
  match varchar 255 product_name with
  | inl e => inl e
  | inr n =>
    match varchar 100 category with
    | inl e => inl e
    | inr c =>
      match int4 quantity with
      | inl e => inl e
      | inr q =>
        match decimal_10_2 price with
        | inl e => inl e
        | inr p => inr (n, c, q, p)
        end
      end
    end
  end.

(** INSERT INTO customers: the values are converted when the statement is
    planned; then the sequence gives the id (and is not given back when the
    statement fails), the NOT NULL columns are checked, and the row enters
    the primary key index and the unique index on email. *)
Definition insert_customer (name email phone city : pystr) (created_date : datetime)
    (seq : Z) (rows : list customer) : Z * (exn + list customer) :=
  match customer_values name email phone city with
  | inl e => (seq, inl e)
  | inr (n, m, p, c) =>
      (seq + 1,
       match n, m with
       | None, _ => inl (not_null_violation "name" "customers")
       | Some _, None => inl (not_null_violation "email" "customers")
       | Some n', Some m' =>
           if has_customer_id seq rows
           then inl (unique_violation "customers_pkey" "id" (pretty seq))
           else if has_email m' rows
           then inl (unique_violation "customers_email_key" "email" m')
           else inr (rows ++ [Customer seq n' m' p c created_date])
       end)
  end.

(** UPDATE customers SET name, email, phone, city WHERE id: no row is
    checked when none matches. *)
Definition update_customer_rows (name email phone city : pystr) (customer_id : Z)
    (rows : list customer) : exn + list customer :=
  match customer_values name email phone city with
  | inl e => inl e
  | inr (n, m, p, c) =>
      if has_customer_id customer_id rows then
        match n, m with
        | None, _ => inl (not_null_violation "name" "customers")
        | Some _, None => inl (not_null_violation "email" "customers")
        | Some n', Some m' =>
            if has_email m' (List.filter (fun r => negb (c_id r =? customer_id)) rows)
            then inl (unique_violation "customers_email_key" "email" m')
            else inr (map (fun r =>
                             if c_id r =? customer_id
                             then Customer (c_id r) n' m' p c (c_created_date r)
                             else r) rows)
        end
      else inr rows
  end.

Definition delete_customer_rows (customer_id : Z) (rows : list customer) : list customer :=
  List.filter (fun r => negb (c_id r =? customer_id)) rows.

Definition insert_item (product_name category : pystr) (quantity price : Z) (last_updated : datetime)
    (seq : Z) (rows : list item) : Z * (exn + list item) :=
  match item_values product_name category quantity price with
  | inl e => (seq, inl e)
  | inr (n, c, q, p) =>
      (seq + 1,
       match n with
       | None => inl (not_null_violation "product_name" "inventory")
       | Some n' =>
           if has_item_id seq rows
           then inl (unique_violation "inventory_pkey" "id" (pretty seq))
           else inr (rows ++ [Item seq n' c (Some q) (Some p) last_updated])
       end)
  end.

Definition update_item_rows (product_name category : pystr)
    (quantity price : Z) (last_updated : datetime) (item_id : Z) (rows : list item) : exn + list item :=
  match item_values product_name category quantity price with
  | inl e => inl e
  | inr (n, c, q, p) =>
      if has_item_id item_id rows then
        match n with
        | None => inl (not_null_violation "product_name" "inventory")
        | Some n' =>
            inr (map (fun r =>
                        if i_id r =? item_id
                        then Item (i_id r) n' c (Some q) (Some p) last_updated
                        else r) rows)
        end
      else inr rows
  end.

Definition delete_item_rows (item_id : Z) (rows : list item) : list item :=
  List.filter (fun r => negb (i_id r =? item_id)) rows.

(** The persistent state of the server: the committed tables and the two
    SERIAL sequences (their next value). *)
Record sequences := Sequences { customers_id_seq : Z; inventory_id_seq : Z }.

(** One statement against the tables a transaction sees.  The result is the
    new state of the sequences and either the error or the tables as the
    transaction sees them afterwards. *)
Definition exec_stmt (s : stmt) (sq : sequences) (t : tables)
  : sequences * (exn + tables) :=
  match s with
  | CreateTables => (sq, inr t)        (* CREATE TABLE IF NOT EXISTS, twice *)
  | InsertCustomer name email phone city created =>
      let '(sq', r) := insert_customer name email phone city created
                         (customers_id_seq sq) (customers t) in
      (Sequences sq' (inventory_id_seq sq),
       match r with inl e => inl e | inr rows => inr (Tables rows (inventory t)) end)
  | UpdateCustomer name email phone city id =>
      (sq,
       match update_customer_rows name email phone city id (customers t) with
       | inl e => inl e
       | inr rows => inr (Tables rows (inventory t))
       end)
  | DeleteCustomer id =>
      (sq, inr (Tables (delete_customer_rows id (customers t)) (inventory t)))
  | InsertInventory name cat q p upd =>
      let '(sq', r) := insert_item name cat q p upd (inventory_id_seq sq) (inventory t) in
      (Sequences (customers_id_seq sq) sq',
       match r with inl e => inl e | inr rows => inr (Tables (customers t) rows) end)
  | UpdateInventory name cat q p upd id =>
      (sq,
       match update_item_rows name cat q p upd id (inventory t) with
       | inl e => inl e
       | inr rows => inr (Tables (customers t) rows)
       end)
  | DeleteInventory id =>
      (sq, inr (Tables (customers t) (delete_item_rows id (inventory t))))
  | SelectCustomers | SelectInventory => (sq, inr t)
  end.

(** ** Tabular results (pandas DataFrame) and Streamlit elements *)

(** A cell of a DataFrame: an integer, a string, a DECIMAL read back as a
    number (kept in hundredths), a timestamp, or a missing value. *)
Inductive cell :=
| CInt (z : Z)
| CStr (s : string)
| CDec (hundredths : Z)
| CTime (t : datetime)
| CNull.

Record frame := Frame {
  columns : list string;
  rows : list (list cell)
}.

(** [pd.DataFrame()] *)
Definition DataFrame : frame := Frame [] [].

(** [df.empty]: some axis has length 0. *)
Definition df_empty (df : frame) : bool :=
  match columns df, rows df with
  | [], _ => true
  | _, [] => true
  | _, _ => false
  end.


Inductive element :=
| StError (msg : string)
| StInfo (msg : string)
| StSubheader (text : string)
| StDataframe (df : frame)
| StMetric (label value : string)
| StDownloadButton (label data file_name mime : string).

(** ** The process and its environment *)

(** State of the transaction of a psycopg2 connection.  A transaction that
    has run statements sees its own version of the tables until it commits. *)
Inductive txn_status :=
| Idle
| InTransaction (view : tables)
| InError.

Record connection := Connection {
  closed : bool;
  status : txn_status
}.

(** [SimpleConnectionPool(1, 10, ...)]: [p_pool] is the list [_pool] of idle
    connections, its head the one appended last; [p_used] the connections
    handed out ([_used]).  Connections are named by their object identity. *)
Record pool := Pool {
  p_pool : list nat;
  p_used : list nat
}.

Definition minconn : nat := 1.
Definition maxconn : nat := 10.

(** The pool object [init_connection_pool] returns (there is one). *)
Inductive pool_ref := ThePool.

(** What the pool and the connections do, in order. *)
Inductive event :=
| EvConnect (c : nat)
| EvGetconn (c : nat)
| EvPutconn (c : nat)
| EvCommit (c : nat)
| EvRollback (c : nat).

Record world := World {
  (** [Some reason] while the server cannot be reached (unreachable host,
      bad credentials, missing secrets) *)
  w_down : option string;
  w_now : datetime;
  (** the committed tables and the sequences *)
  w_tables : tables;
  w_seqs : sequences;
  (** the connection objects of the process *)
  w_conns : gmap nat connection;
  w_next_conn : nat;
  w_pool : pool;
  (** the entry of [st.cache_resource] for [init_connection_pool]: the value
      returned and the elements the call displayed *)
  w_memo : option (option pool_ref * list element);
  (** the elements displayed so far *)
  w_ui : list element;
  w_trace : list event
}.

Definition set_tables (t : tables) (w : world) : world :=
  World (w_down w) (w_now w) t (w_seqs w) (w_conns w) (w_next_conn w) (w_pool w)
        (w_memo w) (w_ui w) (w_trace w).
Definition set_seqs (s : sequences) (w : world) : world :=
  World (w_down w) (w_now w) (w_tables w) s (w_conns w) (w_next_conn w) (w_pool w)
        (w_memo w) (w_ui w) (w_trace w).
Definition set_conn (c : nat) (cn : connection) (w : world) : world :=
  World (w_down w) (w_now w) (w_tables w) (w_seqs w) (<[c := cn]> (w_conns w))
        (w_next_conn w) (w_pool w) (w_memo w) (w_ui w) (w_trace w).
Definition set_next_conn (n : nat) (w : world) : world :=
  World (w_down w) (w_now w) (w_tables w) (w_seqs w) (w_conns w) n (w_pool w)
        (w_memo w) (w_ui w) (w_trace w).
Definition set_pool (p : pool) (w : world) : world :=
  World (w_down w) (w_now w) (w_tables w) (w_seqs w) (w_conns w) (w_next_conn w) p
        (w_memo w) (w_ui w) (w_trace w).
Definition set_memo (m : option (option pool_ref * list element)) (w : world) : world :=
  World (w_down w) (w_now w) (w_tables w) (w_seqs w) (w_conns w) (w_next_conn w) (w_pool w)
        m (w_ui w) (w_trace w).
Definition display (es : list element) (w : world) : world :=
  World (w_down w) (w_now w) (w_tables w) (w_seqs w) (w_conns w) (w_next_conn w) (w_pool w)
        (w_memo w) (w_ui w ++ es) (w_trace w).
Definition log (ev : event) (w : world) : world :=
  World (w_down w) (w_now w) (w_tables w) (w_seqs w) (w_conns w) (w_next_conn w) (w_pool w)
        (w_memo w) (w_ui w) (w_trace w ++ [ev]).

(** The connection object [c]; an object the process does not hold behaves
    as a closed connection. *)
Definition conn_of (w : world) (c : nat) : connection :=
  default (Connection true Idle) (w_conns w !! c).

(** ** Python computations: state and exceptions *)

Inductive outcome (A : Type) :=
| Return (a : A)
| Raise (e : exn).
Arguments Return {A} a.
Arguments Raise {A} e.

Definition M (A : Type) : Type := world -> outcome A * world.

Definition ret {A} (a : A) : M A := fun w => (Return a, w).

Definition raise {A} (e : exn) : M A := fun w => (Raise e, w).

Definition bind {A B} (m : M A) (k : A -> M B) : M B :=
  fun w =>
    match m w with
    | (Return a, w') => k a w'
    | (Raise e, w') => (Raise e, w')
    end.

(** [try: m  except Exception as e: handler e] *)
Definition try_except {A} (m : M A) (handler : exn -> M A) : M A :=
  fun w =>
    match m w with
    | (Return a, w') => (Return a, w')
    | (Raise e, w') => handler e w'
    end.

(** [try: m  finally: cleanup]: [cleanup] runs whatever the outcome of [m]
    is (a [return] in [m] included); an exception of [cleanup] replaces that
    outcome. *)
Definition try_finally {A} (m : M A) (cleanup : M unit) : M A :=
  fun w =>
    match m w with
    | (r, w') =>
        match cleanup w' with
        | (Return _, w'') => (r, w'')
        | (Raise e, w'') => (Raise e, w'')
        end
    end.

Declare Scope py_scope.
Delimit Scope py_scope with py.
Notation "x <- m ;; k" := (bind m (fun x => k))
  (at level 100, m at next level, right associativity) : py_scope.
Notation "m ;; k" := (bind m (fun _ => k))
  (at level 100, right associativity) : py_scope.
Local Open Scope py_scope.

(** ** Streamlit and the clock *)

Definition st_error (msg : string) : M unit := fun w => (Return tt, display [StError msg] w).
Definition st_info (msg : string) : M unit := fun w => (Return tt, display [StInfo msg] w).
Definition st_subheader (text : string) : M unit :=
  fun w => (Return tt, display [StSubheader text] w).
Definition st_dataframe (df : frame) : M unit :=
  fun w => (Return tt, display [StDataframe df] w).
Definition st_metric (label value : string) : M unit :=
  fun w => (Return tt, display [StMetric label value] w).
Definition st_download_button (label data file_name mime : string) : M unit :=
  fun w => (Return tt, display [StDownloadButton label data file_name mime] w).

Definition datetime_now : M datetime := fun w => (Return (w_now w), w).

(** [@st.cache_resource]: the first call that returns runs the body and
    stores its value with the elements it displayed; every later call
    returns the stored value and displays the stored elements again,
    without running the body.  A call that raises stores nothing. *)
Definition cache_resource (body : M (option pool_ref)) : M (option pool_ref) :=
  fun w =>
    match w_memo w with
    | Some (v, shown) => (Return v, display shown w)
    | None =>
        match body w with
        | (Return v, w') =>
            (Return v, set_memo (Some (v, drop (length (w_ui w)) (w_ui w'))) w')
        | (Raise e, w') => (Raise e, w')
        end
    end.

(** ** psycopg2 *)

Definition already_closed : exn := Exn InterfaceError "connection already closed".

Definition server_lost (reason : string) : exn :=
  Exn OperationalError ("server closed the connection unexpectedly: " +:+ reason).

(** [psycopg2.connect(...)]: a new connection object. *)
Definition connect : M nat :=
  fun w =>
    match w_down w with
    | Some reason => (Raise (Exn OperationalError reason), w)
    | None =>
        let c := w_next_conn w in
        (Return c,
         log (EvConnect c) (set_next_conn (S c) (set_conn c (Connection false Idle) w)))
    end.

(** [conn.cursor()]; a cursor is named by its connection. *)
Definition conn_cursor (conn : nat) : M nat :=
  fun w =>
    if closed (conn_of w conn) then (Raise already_closed, w) else (Return conn, w).

(** [cursor.execute(sql, params)].  A statement that fails leaves the
    transaction aborted; losing the server closes the connection. *)
Definition execute (cursor : nat) (s : stmt) : M unit :=
  fun w =>
    let cn := conn_of w cursor in
    if closed cn then (Raise already_closed, w)
    else
      match w_down w with
      | Some reason => (Raise (server_lost reason), set_conn cursor (Connection true Idle) w)
      | None =>
          match status cn with
          | InError =>
              (Raise (Exn InternalError
                        "current transaction is aborted, commands ignored until end of transaction block"),
               w)
          | st =>
              let view := match st with InTransaction v => v | _ => w_tables w end in
              match exec_stmt s (w_seqs w) view with
              | (sq, inl e) =>
                  (Raise e, set_conn cursor (Connection false InError) (set_seqs sq w))
              | (sq, inr view') =>
                  (Return tt,
                   set_conn cursor (Connection false (InTransaction view')) (set_seqs sq w))
              end
          end
      end.

(** [conn.commit()] *)
Definition commit (conn : nat) : M unit :=
  fun w =>
    let cn := conn_of w conn in
    if closed cn then (Raise already_closed, w)
    else
      match status cn with
      | Idle => (Return tt, log (EvCommit conn) w)
      | st =>
          match w_down w with
          | Some reason => (Raise (server_lost reason), set_conn conn (Connection true Idle) w)
          | None =>
              let w' := match st with InTransaction v => set_tables v w | _ => w end in
              (Return tt, log (EvCommit conn) (set_conn conn (Connection false Idle) w'))
          end
      end.

(** [conn.rollback()] *)
Definition rollback (conn : nat) : M unit :=
  fun w =>
    let cn := conn_of w conn in
    if closed cn then (Raise already_closed, w)
    else
      match status cn with
      | Idle => (Return tt, log (EvRollback conn) w)
      | _ =>
          match w_down w with
          | Some reason => (Raise (server_lost reason), set_conn conn (Connection true Idle) w)
          | None => (Return tt, log (EvRollback conn) (set_conn conn (Connection false Idle) w))
          end
      end.

(** [conn.close()] *)
Definition conn_close (conn : nat) : M unit :=
  fun w => (Return tt, set_conn conn (Connection true Idle) w).

(** [SimpleConnectionPool(1, 10, host=st.secrets[...], ...)]: opens
    [minconn] connections. *)
Definition SimpleConnectionPool : M pool_ref :=
  c <- connect ;;
  fun w => (Return ThePool, set_pool (Pool [c] []) w).

(** [connection_pool.getconn()] *)
Definition getconn (_ : pool_ref) : M nat :=
  fun w =>
    let p := w_pool w in
    match p_pool p with
    | c :: rest =>
        (Return c, log (EvGetconn c) (set_pool (Pool rest (c :: p_used p)) w))
    | [] =>
        if (length (p_used p) =? maxconn)%nat
        then (Raise (Exn PoolError "connection pool exhausted"), w)
        else
          match connect w with
          | (Return c, w') =>
              (Return c, log (EvGetconn c) (set_pool (Pool [] (c :: p_used p)) w'))
          | (Raise e, w') => (Raise e, w')
          end
    end.

Fixpoint remove_first (c : nat) (l : list nat) : list nat :=
  match l with
  | [] => []
  | x :: l' => if (x =? c)%nat then l' else x :: remove_first c l'
  end.

Definition is_idle (st : txn_status) : bool :=
  match st with Idle => true | _ => false end.

(** [connection_pool.putconn(conn)]: an open connection goes back to the
    list of idle connections (rolled back first when a transaction is
    open) while fewer than [minconn] are kept; a closed one is dropped;
    the others are closed.  In every case the connection leaves [_used]. *)
Definition putconn (_ : pool_ref) (conn : nat) : M unit :=
  fun w =>
    if negb (existsb (Nat.eqb conn) (p_used (w_pool w)))
    then (Raise (Exn PoolError "trying to put unkeyed connection"), w)
    else
      let kept : M unit :=
        fun w => (Return tt,
                  set_pool (Pool (conn :: p_pool (w_pool w)) (p_used (w_pool w))) w) in
      let back : M unit :=
        if (length (p_pool (w_pool w)) <? minconn)%nat then
          if negb (closed (conn_of w conn)) then
            if is_idle (status (conn_of w conn)) then kept
            else (rollback conn ;; kept)
          else ret tt
        else conn_close conn in
      (back ;;
       fun w => (Return tt,
                 log (EvPutconn conn)
                     (set_pool (Pool (p_pool (w_pool w))
                                     (remove_first conn (p_used (w_pool w)))) w))) w.

(** ** pandas *)

Definition customers_columns : list string :=
  ["id"; "name"; "email"; "phone"; "city"; "created_date"].

Definition inventory_columns : list string :=
  ["id"; "product_name"; "category"; "quantity"; "price"; "last_updated"].

Definition str_cell (v : option string) : cell :=
  match v with Some s => CStr s | None => CNull end.

Definition customer_cells (r : customer) : list cell :=
  [CInt (c_id r); CStr (c_name r); CStr (c_email r); str_cell (c_phone r);
   str_cell (c_city r); CTime (c_created_date r)].

Definition item_cells (r : item) : list cell :=
  [CInt (i_id r); CStr (i_product_name r); str_cell (i_category r);
   match i_quantity r with Some q => CInt q | None => CNull end;
   match i_price r with Some p => CDec p | None => CNull end;
   CTime (i_last_updated r)].

Definition customer_le (a b : customer) : Prop := c_id a <= c_id b.
Definition item_le (a b : item) : Prop := i_id a <= i_id b.

#[global] Instance customer_le_dec a b : Decision (customer_le a b).
Proof. unfold customer_le. apply _. Defined.
#[global] Instance item_le_dec a b : Decision (item_le a b).
Proof. unfold item_le. apply _. Defined.

(** The rows a SELECT * ... ORDER BY id returns. *)
Definition select_customers (t : tables) : list customer :=
  merge_sort customer_le (customers t).

Definition select_inventory (t : tables) : list item :=
  merge_sort item_le (inventory t).

Definition sql_text (s : stmt) : string :=
  match s with
  | SelectCustomers => "SELECT * FROM customers ORDER BY id"
  | SelectInventory => "SELECT * FROM inventory ORDER BY id"
  | _ => ""
  end.

(** The tables the open transaction of [conn] sees. *)
Definition view_of (w : world) (conn : nat) : tables :=
  match status (conn_of w conn) with
  | InTransaction v => v
  | _ => w_tables w
  end.

Definition fetch (s : stmt) (t : tables) : frame :=
  match s with
  | SelectInventory => Frame inventory_columns (map item_cells (select_inventory t))
  | _ => Frame customers_columns (map customer_cells (select_customers t))
  end.

(** [pd.read_sql_query(sql, conn)]: a cursor runs the query and the rows
    become a DataFrame; a failing query is rolled back and raised again as
    a pandas DatabaseError. *)
Definition read_sql_query (s : stmt) (conn : nat) : M frame :=
  cur <- conn_cursor conn ;;
  try_except (execute cur s)
    (fun exc =>
       try_except (rollback conn)
         (fun _ => raise (Exn DatabaseError
                      ("Execution failed on sql: " +:+ sql_text s +:+ newline +:+ exn_str exc
                         +:+ newline +:+ "unable to rollback"))) ;;
       raise (Exn DatabaseError
                ("Execution failed on sql '" +:+ sql_text s +:+ "': " +:+ exn_str exc))) ;;
  fun w => (Return (fetch s (view_of w conn)), w).

(** ** The connection pool (app.py lines 9-38) *)

Definition init_connection_pool : M (option pool_ref) :=
  cache_resource
    (try_except
       (connection_pool <- SimpleConnectionPool ;;
        ret (Some connection_pool))
       (fun e =>
          st_error ("Error connecting to database: " +:+ exn_str e) ;;
          ret None)).

(** [with get_db_connection() as conn: body] *)
Definition with_get_db_connection {A} (body : option nat -> M A) : M A :=
  connection_pool <- init_connection_pool ;;
  match connection_pool with
  | None => body None
  | Some connection_pool =>
      conn <- getconn connection_pool ;;
      try_finally (body (Some conn)) (putconn connection_pool conn)
  end.

(** ** Data access functions (app.py lines 40-198) *)

Definition init_database : M unit :=
  with_get_db_connection (fun conn =>
    match conn with
    | None => ret tt
    | Some conn =>
        cursor <- conn_cursor conn ;;
        execute cursor CreateTables ;;
        commit conn
    end).

Definition add_customer (name email phone city : pystr) : M (bool * string) :=
  with_get_db_connection (fun conn =>
    match conn with
    | None => ret (false, "Database connection failed")
    | Some conn =>
        cursor <- conn_cursor conn ;;
        try_except
          (now <- datetime_now ;;
           execute cursor (InsertCustomer name email phone city now) ;;
           commit conn ;;
           ret (true, "Customer added successfully!"))
          (fun e =>
             if is_IntegrityError e then
               rollback conn ;;
               ret (false, "Email already exists!")
             else
               rollback conn ;;
               ret (false, "Error: " +:+ exn_str e))
    end).

Definition get_all_customers : M frame :=
  with_get_db_connection (fun conn =>
    match conn with
    | None => ret DataFrame
    | Some conn =>
        try_except
          (df <- read_sql_query SelectCustomers conn ;;
           ret df)
          (fun e =>
             st_error ("Error fetching customers: " +:+ exn_str e) ;;
             ret DataFrame)
    end).

Definition update_customer (customer_id : Z) (name email phone city : pystr)
  : M (bool * string) :=
  with_get_db_connection (fun conn =>
    match conn with
    | None => ret (false, "Database connection failed")
    | Some conn =>
        cursor <- conn_cursor conn ;;
        try_except
          (execute cursor (UpdateCustomer name email phone city customer_id) ;;
           commit conn ;;
           ret (true, "Customer updated successfully!"))
          (fun e =>
             rollback conn ;;
             ret (false, "Error: " +:+ exn_str e))
    end).

Definition delete_customer (customer_id : Z) : M string :=
  with_get_db_connection (fun conn =>
    match conn with
    | None => ret "Database connection failed"
    | Some conn =>
        cursor <- conn_cursor conn ;;
        try_except
          (execute cursor (DeleteCustomer customer_id) ;;
           commit conn ;;
           ret "Customer deleted successfully!")
          (fun e =>
             rollback conn ;;
             ret ("Error: " +:+ exn_str e))
    end).

Definition add_inventory_item (product_name category : pystr) (quantity price : Z)
  : M string :=
  with_get_db_connection (fun conn =>
    match conn with
    | None => ret "Database connection failed"
    | Some conn =>
        cursor <- conn_cursor conn ;;
        try_except
          (now <- datetime_now ;;
           execute cursor (InsertInventory product_name category quantity price now) ;;
           commit conn ;;
           ret "Inventory item added successfully!")
          (fun e =>
             rollback conn ;;
             ret ("Error: " +:+ exn_str e))
    end).

Definition get_all_inventory : M frame :=
  with_get_db_connection (fun conn =>
    match conn with
    | None => ret DataFrame
    | Some conn =>
        try_except
          (df <- read_sql_query SelectInventory conn ;;
           ret df)
          (fun e =>
             st_error ("Error fetching inventory: " +:+ exn_str e) ;;
             ret DataFrame)
    end).

Definition update_inventory_item (item_id : Z) (product_name category : pystr)
    (quantity price : Z) : M string :=
  with_get_db_connection (fun conn =>
    match conn with
    | None => ret "Database connection failed"
    | Some conn =>
        cursor <- conn_cursor conn ;;
        try_except
          (now <- datetime_now ;;
           execute cursor (UpdateInventory product_name category quantity price now item_id) ;;
           commit conn ;;
           ret "Inventory item updated successfully!")
          (fun e =>
             rollback conn ;;
             ret ("Error: " +:+ exn_str e))
    end).

Definition delete_inventory_item (item_id : Z) : M string :=
  with_get_db_connection (fun conn =>
    match conn with
    | None => ret "Database connection failed"
    | Some conn =>
        cursor <- conn_cursor conn ;;
        try_except
          (execute cursor (DeleteInventory item_id) ;;
           commit conn ;;
           ret "Inventory item deleted successfully!")
          (fun e =>
             rollback conn ;;
             ret ("Error: " +:+ exn_str e))
    end).

(** ** Text of values *)

Fixpoint zeros (k : nat) : string :=
  match k with
  | O => ""
  | S k' => "0" +:+ zeros k'
  end.

(** [n] in decimal, padded with zeros on the left to [width] digits. *)
Definition pad (width n : nat) : string :=
  let s := pretty n in zeros (width - String.length s) +:+ s.

Definition render_datetime (t : datetime) : string :=
  pad 4 (year t) +:+ "-" +:+ pad 2 (month t) +:+ "-" +:+ pad 2 (day t) +:+ " "
    +:+ pad 2 (hour t) +:+ ":" +:+ pad 2 (minute t) +:+ ":" +:+ pad 2 (second t)
    +:+ "." +:+ pad 6 (microsecond t).

(** The shortest decimal text of an amount given in hundredths: 250 is
    2.5, 2500 is 25.0, 1025 is 10.25. *)
Definition render_float (h : Z) : string :=
  let a := Z.abs h in
  (if h <? 0 then "-" else "") +:+ pretty (a / 100) +:+ "." +:+
  (if a mod 100 =? 0 then "0"
   else if a mod 10 =? 0 then pretty (a mod 100 / 10)
        else pad 2 (Z.to_nat (a mod 100))).

Definition render_cell (c : cell) : string :=
  match c with
  | CInt z => pretty z
  | CStr s => s
  | CDec h => render_float h
  | CTime t => render_datetime t
  | CNull => ""
  end.

(** Digits, least significant first, with a comma after every third one
    that has a successor; [k] digits remain in the current group. *)
Fixpoint commas_rev (k : nat) (l : list ascii) : list ascii :=
  match l with
  | [] => []
  | a :: l' =>
      match k with
      | O => ","%char :: a :: commas_rev 2 l'
      | S k' => a :: commas_rev k' l'
      end
  end.

Definition thousands (n : Z) : string :=
  string_of_list_ascii (rev (commas_rev 3 (rev (list_ascii_of_string (pretty n))))).

(** [f"${total_value:,.2f}"] for an amount given in hundredths. *)
Definition format_money (h : Z) : string :=
  let a := Z.abs h in
  "$" +:+ (if h <? 0 then "-" else "") +:+ thousands (a / 100) +:+ "."
      +:+ pad 2 (Z.to_nat (a mod 100)).

(** ** [df.to_csv(index=False)] *)

Definition comma : ascii := ","%char.
Definition quotechar : ascii := ascii_of_nat 34.
Definition LF : ascii := ascii_of_nat 10.
Definition CR : ascii := ascii_of_nat 13.

Definition csv_special (a : ascii) : bool :=
  Ascii.eqb a comma || Ascii.eqb a quotechar || Ascii.eqb a LF || Ascii.eqb a CR.

Fixpoint needs_quote (s : string) : bool :=
  match s with
  | EmptyString => false
  | String a s' => csv_special a || needs_quote s'
  end.

Fixpoint double_quotes (s : string) : string :=
  match s with
  | EmptyString => EmptyString
  | String a s' =>
      if Ascii.eqb a quotechar then String a (String a (double_quotes s'))
      else String a (double_quotes s')
  end.

(** QUOTE_MINIMAL: a field is quoted only when it holds the delimiter, the
    quote character or a line break; quotes inside are doubled. *)
Definition csv_field (s : string) : string :=
  if needs_quote s
  then String quotechar (double_quotes s +:+ String quotechar EmptyString)
  else s.

Fixpoint join_fields (fields : list string) : string :=
  match fields with
  | [] => EmptyString
  | [f] => csv_field f
  | f :: fs => csv_field f +:+ String comma (join_fields fs)
  end.

(** One record and its line terminator; a record made of one empty field
    is written as an empty quoted field. *)
Definition csv_line (fields : list string) : string :=
  match fields with
  | [EmptyString] => String quotechar (String quotechar (String LF EmptyString))
  | _ => join_fields fields +:+ String LF EmptyString
  end.

Fixpoint csv_lines (records : list (list string)) : string :=
  match records with
  | [] => EmptyString
  | r :: rs => csv_line r +:+ csv_lines rs
  end.

(** The records of the text a frame is exported to: the column names,
    then the cells of each row as text. *)
Definition csv_records (df : frame) : list (list string) :=
  columns df :: map (map render_cell) (rows df).

Definition to_csv (df : frame) : string := csv_lines (csv_records df).

(** *** Reading delimited text back

    The application only writes the text; this reader stands for the
    program that opens the downloaded file.  It reads comma-separated text
    the usual way: records end at a line feed outside quotes, fields at a
    comma outside quotes, a doubled quote inside a quoted field is one
    quote.  [None] when the text is malformed. *)
Inductive reader_state :=
| StartRecord     (* nothing of the record read yet *)
| StartField      (* just after a comma *)
| InField         (* inside an unquoted field *)
| InQuoted        (* inside a quoted field *)
| QuoteInQuoted.  (* after a quote inside a quoted field *)

Definition field_of (acc : list ascii) : string := string_of_list_ascii (rev acc).

Fixpoint read_csv (st : reader_state) (field : list ascii) (record : list string)
    (records : list (list string)) (input : string) : option (list (list string)) :=
  match input with
  | EmptyString =>
      match st with
      | StartRecord => Some (rev records)
      | StartField | InField | QuoteInQuoted =>
          Some (rev (rev (field_of field :: record) :: records))
      | InQuoted => None
      end
  | String a rest =>
      match st with
      | StartRecord | StartField =>
          if Ascii.eqb a quotechar then read_csv InQuoted [] record records rest
          else if Ascii.eqb a comma
          then read_csv StartField [] (EmptyString :: record) records rest
          else if Ascii.eqb a LF
          then read_csv StartRecord [] [] (rev (EmptyString :: record) :: records) rest
          else read_csv InField [a] record records rest
      | InField =>
          if Ascii.eqb a quotechar then None
          else if Ascii.eqb a comma
          then read_csv StartField [] (field_of field :: record) records rest
          else if Ascii.eqb a LF
          then read_csv StartRecord [] [] (rev (field_of field :: record) :: records) rest
          else read_csv InField (a :: field) record records rest
      | InQuoted =>
          if Ascii.eqb a quotechar then read_csv QuoteInQuoted field record records rest
          else read_csv InQuoted (a :: field) record records rest
      | QuoteInQuoted =>
          if Ascii.eqb a quotechar then read_csv InQuoted (a :: field) record records rest
          else if Ascii.eqb a comma
          then read_csv StartField [] (field_of field :: record) records rest
          else if Ascii.eqb a LF
          then read_csv StartRecord [] [] (rev (field_of field :: record) :: records) rest
          else None
      end
  end.

Definition parse_csv (text : string) : option (list (list string)) :=
  read_csv StartRecord [] [] [] text.

(** ** Column arithmetic *)

Fixpoint index_of (name : string) (cols : list string) : option nat :=
  match cols with
  | [] => None
  | c :: cols' =>
      if String.eqb c name then Some O
      else match index_of name cols' with Some i => Some (S i) | None => None end
  end.

(** ['name' in df.columns] *)
Definition has_column (name : string) (df : frame) : bool :=
  match index_of name (columns df) with Some _ => true | None => false end.

(** [df['name']] *)
Definition column (name : string) (df : frame) : list cell :=
  match index_of name (columns df) with
  | Some i => map (fun r => nth i r CNull) (rows df)
  | None => []
  end.

(** The product of an integer and an amount, in hundredths; a missing
    operand gives a missing product. *)
Definition cell_mul (a b : cell) : option Z :=
  match a, b with
  | CInt q, CDec p => Some (q * p)
  | _, _ => None
  end.

Fixpoint series_mul (xs ys : list cell) : list (option Z) :=
  match xs, ys with
  | x :: xs', y :: ys' => cell_mul x y :: series_mul xs' ys'
  | _, _ => []
  end.

(** [.sum()]: missing values are skipped, the empty sum is 0. *)
Fixpoint series_sum (l : list (option Z)) : Z :=
  match l with
  | [] => 0
  | Some v :: l' => v + series_sum l'
  | None :: l' => series_sum l'
  end.

(** ** The "View All" tabs (app.py lines 247-257 and 325-339) *)

Definition customers_view_all : M unit :=
  st_subheader "All Customers" ;;
  customers_df <- get_all_customers ;;
  if df_empty customers_df then
    st_info "No customers found. Add your first customer!"
  else
    st_dataframe customers_df ;;
    let csv := to_csv customers_df in
    st_download_button "Download as CSV" csv "customers.csv" "text/csv".

Definition inventory_view_all : M unit :=
  st_subheader "All Inventory Items" ;;
  inventory_df <- get_all_inventory ;;
  if df_empty inventory_df then
    st_info "No inventory items found. Add your first product!"
  else
    st_dataframe inventory_df ;;
    (if has_column "quantity" inventory_df && has_column "price" inventory_df then
       let total_value :=
         series_sum (series_mul (column "quantity" inventory_df)
                                (column "price" inventory_df)) in
       st_metric "Total Inventory Value" (format_money total_value)
     else ret tt) ;;
    let csv := to_csv inventory_df in
    st_download_button "Download as CSV" csv "inventory.csv" "text/csv".

(** ** Calls of the presentation layer into the data access layer *)

Inductive call :=
| AddCustomer (name email phone city : pystr)
| GetAllCustomers
| UpdateCustomerCall (customer_id : Z) (name email phone city : pystr)
| DeleteCustomerCall (customer_id : Z)
| AddInventoryItem (product_name category : pystr) (quantity price : Z)
| GetAllInventory
| UpdateInventoryItem (item_id : Z) (product_name category : pystr) (quantity price : Z)
| DeleteInventoryItem (item_id : Z)
| InitDatabase.

(** What a call hands back to its caller. *)
Inductive pyval :=
| PNone
| PStr (s : string)
| PTuple (status : bool) (message : string)
| PFrame (df : frame).

Definition fmap {A B} (f : A -> B) (m : M A) : M B := x <- m ;; ret (f x).

Definition run_call (c : call) : M pyval :=
  match c with
  | AddCustomer name email phone city =>
      fmap (fun r => PTuple (fst r) (snd r)) (add_customer name email phone city)
  | GetAllCustomers => fmap PFrame get_all_customers
  | UpdateCustomerCall id name email phone city =>
      fmap (fun r => PTuple (fst r) (snd r)) (update_customer id name email phone city)
  | DeleteCustomerCall id => fmap PStr (delete_customer id)
  | AddInventoryItem name category quantity price =>
      fmap PStr (add_inventory_item name category quantity price)
  | GetAllInventory => fmap PFrame get_all_inventory
  | UpdateInventoryItem id name category quantity price =>
      fmap PStr (update_inventory_item id name category quantity price)
  | DeleteInventoryItem id => fmap PStr (delete_inventory_item id)
  | InitDatabase => fmap (fun _ => PNone) init_database
  end.

(** ** Properties of states *)

(** The server is lost for [reason] while the pool keeps its one idle
    connection, still open. *)
Definition lost (reason : string) (w : world) : Prop :=
  w_down w = Some reason /\
  w_memo w = Some (Some ThePool, []) /\
  exists c, p_pool (w_pool w) = [c] /\ w_conns w !! c = Some (Connection false Idle).

(** The connections a trace leaves checked out. *)
Fixpoint checked_out (tr : list event) (out : list nat) : list nat :=
  match tr with
  | [] => out
  | EvGetconn c :: tr' => checked_out tr' (c :: out)
  | EvPutconn c :: tr' => checked_out tr' (remove_first c out)
  | _ :: tr' => checked_out tr' out
  end.

(** The connections the pool has handed out and not got back; none while
    there is no pool. *)
Definition in_use (w : world) : list nat :=
  match w_memo w with
  | Some (Some _, _) => p_used (w_pool w)
  | _ => []
  end.

(** The next call obtains a working connection: the server is reachable,
    and the pool either is yet to be created, or keeps its one idle
    connection, open and outside a transaction, or keeps none and has room
    to open one. *)
Definition live (w : world) : Prop :=
  w_down w = None /\
  match w_memo w with
  | None => True
  | Some (Some _, shown) =>
      shown = [] /\
      match p_pool (w_pool w) with
      | [] => (length (p_used (w_pool w)) < maxconn)%nat
      | [c] => w_conns w !! c = Some (Connection false Idle)
      | _ => False
      end
  | Some (None, _) => False
  end.

(** The element [init_connection_pool] displays when the pool cannot be
    created. *)
Definition creation_error (reason : string) : element :=
  StError ("Error connecting to database: " +:+ reason).

(** No pool: creating it failed before for [reason] (and the failure is
    stored with the element it displayed), or fails now. *)
Definition no_pool (reason : string) (w : world) : Prop :=
  match w_memo w with
  | Some (None, shown) => shown = [creation_error reason]
  | Some (Some _, _) => False
  | None => w_down w = Some reason
  end.


(** The invariants the store keeps for customers: PRIMARY KEY and UNIQUE. *)
Definition unique_ids (rows : list customer) : Prop := List.NoDup (map c_id rows).
Definition unique_emails (rows : list customer) : Prop := List.NoDup (map c_email rows).

(** ** The two shapes of the data access functions

    The six functions that change a table differ in their statement, their
    results and their handler; the two list functions in their query and
    message.  Each function above is an instance of one of the two shapes
    below. *)

Definition mutation {A} (failed ok : A) (s : datetime -> stmt)
    (handler : nat -> exn -> M A) : M A :=
  with_get_db_connection (fun conn =>
    match conn with
    | None => ret failed
    | Some conn =>
        cursor <- conn_cursor conn ;;
        try_except
          (now <- datetime_now ;;
           execute cursor (s now) ;;
           commit conn ;;
           ret ok)
          (handler conn)
    end).

Definition listing (s : stmt) (message : string) : M frame :=
  with_get_db_connection (fun conn =>
    match conn with
    | None => ret DataFrame
    | Some conn =>
        try_except
          (df <- read_sql_query s conn ;;
           ret df)
          (fun e =>
             st_error (message +:+ exn_str e) ;;
             ret DataFrame)
    end).

(** A handler that rolls back and returns [g e]. *)
Definition handles {A} (handler : nat -> exn -> M A) (g : exn -> A) : Prop :=
  forall c e w, handler c e w = (rollback c ;; ret (g e)) w.

Definition add_customer_result (e : exn) : bool * string :=
  if is_IntegrityError e then (false, "Email already exists!")
  else (false, "Error: " +:+ exn_str e).

Definition error_pair (e : exn) : bool * string := (false, "Error: " +:+ exn_str e).
Definition error_text (e : exn) : string := "Error: " +:+ exn_str e.

(** What the statement [s] does to the committed state of [w]. *)
Definition stmt_outcome (s : datetime -> stmt) (w : world) : sequences * (exn + tables) :=
  exec_stmt (s (w_now w)) (w_seqs w) (w_tables w).

(** The statement of each call. *)
Definition stmt_of_call (c : call) (now : datetime) : stmt :=
  match c with
  | AddCustomer name email phone city => InsertCustomer name email phone city now
  | GetAllCustomers => SelectCustomers
  | UpdateCustomerCall id name email phone city => UpdateCustomer name email phone city id
  | DeleteCustomerCall id => DeleteCustomer id
  | AddInventoryItem name category quantity price =>
      InsertInventory name category quantity price now
  | GetAllInventory => SelectInventory
  | UpdateInventoryItem id name category quantity price =>
      UpdateInventory name category quantity price now id
  | DeleteInventoryItem id => DeleteInventory id
  | InitDatabase => CreateTables
  end.

(** The state in which a call without a pool runs its body. *)
Definition refused (reason : string) (w : world) : world :=
  set_memo (Some (None, [creation_error reason])) (display [creation_error reason] w).

(** Events that neither hand out nor take back a connection. *)
Definition quiet_event (ev : event) : bool :=
  match ev with
  | EvGetconn _ | EvPutconn _ => false
  | _ => true
  end.


(** The value a call returns when there is no pool. *)
Definition refusal (c : call) : pyval :=
  match c with
  | AddCustomer _ _ _ _ | UpdateCustomerCall _ _ _ _ _ =>
      PTuple false "Database connection failed"
  | GetAllCustomers | GetAllInventory => PFrame DataFrame
  | InitDatabase => PNone
  | DeleteCustomerCall _ | AddInventoryItem _ _ _ _ | UpdateInventoryItem _ _ _ _ _
  | DeleteInventoryItem _ => PStr "Database connection failed"
  end.

(** The value a call returns on a working connection: [t] are the tables
    before, [r] is the outcome of its statement. *)
Definition reply (c : call) (t : tables) (r : exn + tables) : pyval :=
  match c, r with
  | AddCustomer _ _ _ _, inr _ => PTuple true "Customer added successfully!"
  | AddCustomer _ _ _ _, inl e =>
      PTuple false (if is_IntegrityError e then "Email already exists!"
                    else "Error: " +:+ exn_str e)
  | UpdateCustomerCall _ _ _ _ _, inr _ => PTuple true "Customer updated successfully!"
  | UpdateCustomerCall _ _ _ _ _, inl e => PTuple false ("Error: " +:+ exn_str e)
  | DeleteCustomerCall _, inr _ => PStr "Customer deleted successfully!"
  | AddInventoryItem _ _ _ _, inr _ => PStr "Inventory item added successfully!"
  | UpdateInventoryItem _ _ _ _ _, inr _ => PStr "Inventory item updated successfully!"
  | DeleteInventoryItem _, inr _ => PStr "Inventory item deleted successfully!"
  | (DeleteCustomerCall _ | AddInventoryItem _ _ _ _ | UpdateInventoryItem _ _ _ _ _
     | DeleteInventoryItem _), inl e => PStr ("Error: " +:+ exn_str e)
  | GetAllCustomers, _ => PFrame (fetch SelectCustomers t)
  | GetAllInventory, _ => PFrame (fetch SelectInventory t)
  | InitDatabase, _ => PNone
  end.

(** The kinds of value the calls return: a status with a message for
    add and update customer, a message alone for delete customer and the
    three functions that change the inventory, a DataFrame for the list
    functions. *)
Definition is_status_message (v : pyval) : Prop :=
  exists status message, v = PTuple status message.

Definition shape_of (c : call) (succeeded : bool) (v : pyval) : Prop :=
  match c with
  | AddCustomer _ _ _ _ | UpdateCustomerCall _ _ _ _ _ =>
      exists message, v = PTuple succeeded message
  | GetAllCustomers | GetAllInventory => exists df, v = PFrame df
  | InitDatabase => v = PNone
  | DeleteCustomerCall _ | AddInventoryItem _ _ _ _ | UpdateInventoryItem _ _ _ _ _
  | DeleteInventoryItem _ => exists message, v = PStr message
  end.

Definition succeeded (r : exn + tables) : bool :=
  match r with inl _ => false | inr _ => true end.

(** The value of the inventory: quantity times price, summed over the
    rows that have both, in hundredths. *)
Fixpoint inventory_value (rows : list item) : Z :=
  match rows with
  | [] => 0
  | r :: rows' =>
      match i_quantity r, i_price r with
      | Some q, Some p => q * p + inventory_value rows'
      | _, _ => inventory_value rows'
      end
  end.

(** ** The life of the process *)

(** Between two calls the server, its tables and sequences, the clock and
    the page displayed may change in any way; the process keeps its cache,
    its pool and its connections. *)
Definition environment_change (down : option string) (now : datetime) (t : tables)
    (sq : sequences) (ui : list element) (w : world) : world :=
  World down now t sq (w_conns w) (w_next_conn w) (w_pool w) (w_memo w) ui (w_trace w).

Inductive process_step : world -> world -> Prop :=
| step_call (c : call) (w : world) :
    process_step w (snd (run_call c w))
| step_environment down now t sq ui (w : world) :
    process_step w (environment_change down now t sq ui w).

(** ** States of a call in progress *)

(** [w1] is [w] after a call has taken the connection [c] from the pool:
    the connection is open and idle, the server reachable, the tables and
    the page as in [w]. *)
Record acquired (w : world) (c : nat) (w1 : world) : Prop := {
  acq_conn : w_conns w1 !! c = Some (Connection false Idle);
  acq_down : w_down w1 = None;
  acq_pool : w_pool w1 = Pool [] (c :: in_use w);
  acq_memo : w_memo w1 = Some (Some ThePool, []);
  acq_tables : w_tables w1 = w_tables w;
  acq_seqs : w_seqs w1 = w_seqs w;
  acq_ui : w_ui w1 = w_ui w;
  acq_now : w_now w1 = w_now w;
  acq_trace : exists evs, w_trace w1 = w_trace w ++ evs ++ [EvGetconn c]
}.

(** Events that leave the pool alone. *)
Definition quiet (evs : list event) : Prop := forallb quiet_event evs = true.


(** A body that leaves the pool alone, logs nothing about it, and ends
    with the server reachable or the connection closed. *)
Record polite {A} (body : option nat -> M A) : Prop := {
  polite_none : forall w, exists r, body None w = (r, w);
  polite_some : forall c w, exists r w' evs,
      body (Some c) w = (r, w') /\
      w_pool w' = w_pool w /\ w_memo w' = w_memo w /\
      w_trace w' = w_trace w ++ evs /\ quiet evs /\
      (closed (conn_of w' c) = true \/ w_down w' = None)
}.

(** ** Reading a field *)




(** ** Concrete states *)

Definition noon : datetime := Datetime 2024 5 17 12 0 0 0.

Definition ann : customer :=
  Customer 1 "Ann" "ann@example.com" (Some "555-0100") (Some "Paris") noon.
Definition bob : customer :=
  Customer 2 "Bob" "bob@example.com" None (Some "Oslo") noon.

Definition widget : item := Item 1 "Widget" (Some "Hardware") (Some 10) (Some 250) noon.
Definition gadget : item := Item 2 "Gadget" None (Some 3) (Some 1999) noon.

(** A process just started, the server reachable, both tables empty. *)
Definition fresh_world : world :=
  World None noon (Tables [] []) (Sequences 1 1) ∅ 0 (Pool [] []) None [] [].

(** A process whose pool keeps its one connection, over two customers and
    two inventory items. *)
Definition shop_world : world :=
  World None noon (Tables [bob; ann] [gadget; widget]) (Sequences 3 3)
        {[ 0%nat := Connection false Idle ]} 1 (Pool [0%nat] [])
        (Some (Some ThePool, [])) [] [EvConnect 0].

(** A process started while the server was unreachable: the failed
    creation of the pool is stored. *)
Definition stranded_world : world :=
  World None noon (Tables [bob; ann] [gadget; widget]) (Sequences 3 3) ∅ 0 (Pool [] [])
        (Some (None, [creation_error "could not connect to server"])) [] [].

(** The server is lost while the pool keeps an open connection. *)
Definition lost_world : world :=
  World (Some "timeout") noon (Tables [bob; ann] [gadget; widget]) (Sequences 3 3)
        {[ 0%nat := Connection false Idle ]} 1 (Pool [0%nat] [])
        (Some (Some ThePool, [])) [] [EvConnect 0].

(** A process about to start while the server is unreachable. *)
Definition unreachable_world : world :=
  World (Some "could not connect to server") noon (Tables [bob; ann] [gadget; widget])
        (Sequences 3 3) ∅ 0 (Pool [] []) None [] [].

(** The same process later: the first call has failed to create the pool,
    a list call has followed, and the server has become reachable. *)
Definition recovered_world : world :=
  environment_change None noon (Tables [bob; ann] [gadget; widget]) (Sequences 3 3) []
    (snd (run_call GetAllCustomers (snd (run_call InitDatabase unreachable_world)))).

(** ** Further properties of states and calls *)

(** What PRIMARY KEY, UNIQUE and SERIAL keep true of the two tables: ids
    and emails are not repeated, and every id was given by its sequence, so
    that it lies below the sequence's next value. *)
Record consistent (t : tables) (sq : sequences) : Prop := {
  consistent_customer_ids : unique_ids (customers t);
  consistent_emails : unique_emails (customers t);
  consistent_item_ids : List.NoDup (map i_id (inventory t));
  consistent_customers_seq :
    forall r, In r (customers t) -> c_id r < customers_id_seq sq;
  consistent_inventory_seq :
    forall r, In r (inventory t) -> i_id r < inventory_id_seq sq
}.

(** One call of the data access layer after another, the environment left
    alone. *)
Inductive call_step : world -> world -> Prop :=
| call_step_run (c : call) (w : world) : call_step w (snd (run_call c w)).

(** The calls on customers, and the calls on the inventory. *)
Definition on_customers (c : call) : bool :=
  match c with
  | AddCustomer _ _ _ _ | GetAllCustomers | UpdateCustomerCall _ _ _ _ _
  | DeleteCustomerCall _ => true
  | _ => false
  end.

Definition on_inventory (c : call) : bool :=
  match c with
  | AddInventoryItem _ _ _ _ | GetAllInventory | UpdateInventoryItem _ _ _ _ _
  | DeleteInventoryItem _ => true
  | _ => false
  end.

(** The pool exists and keeps its one connection [c], open and idle. *)
Definition pooled (c : nat) (w : world) : Prop :=
  w_down w = None /\
  w_memo w = Some (Some ThePool, []) /\
  p_pool (w_pool w) = [c] /\
  w_conns w !! c = Some (Connection false Idle).

(** The pool exists, keeps no idle connection, and has handed out all
    [maxconn] connections. *)
Definition exhausted (w : world) : Prop :=
  (exists shown, w_memo w = Some (Some ThePool, shown)) /\
  p_pool (w_pool w) = [] /\
  length (p_used (w_pool w)) = maxconn.

(** The row an UPDATE of customers writes over the row [r]. *)
Definition overwritten (name email : string) (phone city : pystr) (r : customer) : customer :=
  Customer (c_id r) name email phone city (c_created_date r).

(** The row an UPDATE of inventory writes over the row [r]. *)
Definition restocked (product_name : string) (category : pystr) (quantity price : Z)
    (now : datetime) (r : item) : item :=
  Item (i_id r) product_name category (Some quantity) (Some price) now.

(** A computation that leaves the committed tables and the sequences as
    they are, whatever the state it starts in and however it ends. *)
Definition read_only {A} (m : M A) : Prop :=
  forall w, w_tables (snd (m w)) = w_tables w /\ w_seqs (snd (m w)) = w_seqs w.

(** The server cannot be reached, and the pool, which exists, keeps no idle
    connection and has room to open one. *)
Definition drained (reason : string) (w : world) : Prop :=
  w_down w = Some reason /\
  w_memo w = Some (Some ThePool, []) /\
  p_pool (w_pool w) = [] /\
  (length (p_used (w_pool w)) < maxconn)%nat.


(** A body that, given an open and idle connection to a reachable server,
    ends with the connection open, the server reachable, and the pool, the
    cache and the count of connections opened as they were. *)
Definition settles {A} (body : option nat -> M A) : Prop :=
  forall c w,
    w_conns w !! c = Some (Connection false Idle) -> w_down w = None ->
    exists r w' st,
      body (Some c) w = (r, w') /\
      w_pool w' = w_pool w /\ w_next_conn w' = w_next_conn w /\
      w_memo w' = w_memo w /\ w_down w' = None /\
      w_conns w' !! c = Some (Connection false st).

(** ** What the forms do when submitted (app.py lines 259-393) *)

(** How the block under [if submit:] or [if st.button(...)] leaves the
    script: the script runs on and renders the rest of the page, or
    [st.success(message)] is followed by [st.rerun()], which abandons the
    run and starts the script again from the top. *)
Inductive script :=
| RunsOn
| Reruns (message : string).

(** [st.success(message)] and then [st.rerun()] *)
Definition st_success_rerun (message : string) : M script := ret (Reruns message).

(** The truth value of a str: false for the empty one only. *)
Definition truthy (s : string) : bool :=
  match s with EmptyString => false | _ => true end.

(** [str(v) if pd.notna(v) else ""], the text a field of the update forms
    starts with. *)
Definition notna_or_empty (v : pystr) : string :=
  match v with Some s => s | None => EmptyString end.

(** The form "add_customer_form" (lines 261-277); a text input gives a
    str, empty when nothing was typed. *)
Definition add_customer_form (name email phone city : string) (submit : bool) : M script :=
  if submit then
    if truthy name && truthy email then
      r <- add_customer (Some name) (Some email) (Some phone) (Some city) ;;
      let '(success, message) := r in
      if success then st_success_rerun message
      else (st_error message ;; ret RunsOn)
    else
      st_error "Name and Email are required!" ;; ret RunsOn
  else ret RunsOn.

(** The texts the form "update_customer_form" starts with for the selected
    row (lines 289-292). *)
Definition update_customer_defaults (r : customer) : string * string * string * string :=
  (c_name r, c_email r, notna_or_empty (c_phone r), notna_or_empty (c_city r)).

(** The form "update_customer_form" (lines 288-301) *)
Definition update_customer_form (customer_id : Z) (name email phone city : string)
    (submit : bool) : M script :=
  if submit then
    r <- update_customer customer_id (Some name) (Some email) (Some phone) (Some city) ;;
    let '(success, message) := r in
    if success then st_success_rerun message
    else (st_error message ;; ret RunsOn)
  else ret RunsOn.


(** The form "add_inventory_form" (lines 343-356); the price in
    hundredths. *)
Definition add_inventory_form (product_name category : string) (quantity price : Z)
    (submit : bool) : M script :=
  if submit then
    if truthy product_name then
      message <- add_inventory_item (Some product_name) (Some category) quantity price ;;
      st_success_rerun message
    else
      st_error "Product name is required!" ;; ret RunsOn
  else ret RunsOn.

(** The form "update_inventory_form" (lines 367-377) *)
Definition update_inventory_form (item_id : Z) (product_name category : string)
    (quantity price : Z) (submit : bool) : M script :=
  if submit then
    message <- update_inventory_item item_id (Some product_name) (Some category)
                 quantity price ;;
    st_success_rerun message
  else ret RunsOn.


(** The row [r] with the empty string where its phone or its city is
    NULL. *)
Definition without_nulls (r : customer) : customer :=
  Customer (c_id r) (c_name r) (c_email r) (Some (notna_or_empty (c_phone r)))
           (Some (notna_or_empty (c_city r))) (c_created_date r).

(** * Theorems *)

Arguments exec_stmt : simpl never.

(** ** Each function is an instance of its shape *)

Lemma add_customer_shape name email phone city :
  add_customer name email phone city =
  mutation (false, "Database connection failed") (true, "Customer added successfully!")
    (InsertCustomer name email phone city)
    (fun conn e =>
       if is_IntegrityError e then rollback conn ;; ret (false, "Email already exists!")
       else rollback conn ;; ret (false, "Error: " +:+ exn_str e)).
Proof. reflexivity. Qed.

Lemma update_customer_shape id name email phone city :
  update_customer id name email phone city =
  mutation (false, "Database connection failed") (true, "Customer updated successfully!")
    (fun _ => UpdateCustomer name email phone city id)
    (fun conn e => rollback conn ;; ret (error_pair e)).
Proof. reflexivity. Qed.

Lemma delete_customer_shape id :
  delete_customer id =
  mutation "Database connection failed" "Customer deleted successfully!"
    (fun _ => DeleteCustomer id) (fun conn e => rollback conn ;; ret (error_text e)).
Proof. reflexivity. Qed.

Lemma add_inventory_item_shape name category quantity price :
  add_inventory_item name category quantity price =
  mutation "Database connection failed" "Inventory item added successfully!"
    (InsertInventory name category quantity price)
    (fun conn e => rollback conn ;; ret (error_text e)).
Proof. reflexivity. Qed.

Lemma update_inventory_item_shape id name category quantity price :
  update_inventory_item id name category quantity price =
  mutation "Database connection failed" "Inventory item updated successfully!"
    (fun now => UpdateInventory name category quantity price now id)
    (fun conn e => rollback conn ;; ret (error_text e)).
Proof. reflexivity. Qed.

Lemma delete_inventory_item_shape id :
  delete_inventory_item id =
  mutation "Database connection failed" "Inventory item deleted successfully!"
    (fun _ => DeleteInventory id) (fun conn e => rollback conn ;; ret (error_text e)).
Proof. reflexivity. Qed.

Lemma get_all_customers_shape :
  get_all_customers = listing SelectCustomers "Error fetching customers: ".
Proof. reflexivity. Qed.

Lemma get_all_inventory_shape :
  get_all_inventory = listing SelectInventory "Error fetching inventory: ".
Proof. reflexivity. Qed.

Lemma handles_add_customer :
  handles (fun conn e =>
             if is_IntegrityError e then rollback conn ;; ret (false, "Email already exists!")
             else rollback conn ;; ret (false, "Error: " +:+ exn_str e))
          add_customer_result.
Proof.
  intros c e w. unfold add_customer_result. destruct (is_IntegrityError e); reflexivity.
Qed.

Lemma handles_rollback {A} (g : exn -> A) :
  handles (fun conn e => rollback conn ;; ret (g e)) g.
Proof. intros c e w. reflexivity. Qed.

(** ** Acquiring and releasing a connection *)

Lemma acquire w :
  live w ->
  exists c w1, acquired w c w1 /\
    forall A (body : option nat -> M A),
      with_get_db_connection body w = try_finally (body (Some c)) (putconn ThePool c) w1.
Proof.
  intros [Hdown Hmemo].
  destruct w as [down now t sq conns next [pl used] memo ui tr]; unfold in_use; simpl in *;
    subst down.
  destruct memo as [[[[]|] shown]|].
  - destruct Hmemo as [-> Hpool]. destruct pl as [|c [|c' rest]]; [| |done]; simpl in Hpool.
    + eexists next, _. split; cycle 1.
      { intros A body.
        unfold with_get_db_connection, bind, init_connection_pool, cache_resource, getconn,
          connect; simpl.
        destruct (length used =? maxconn)%nat eqn:E; [apply Nat.eqb_eq in E; lia|].
        reflexivity. }
      split; simpl; rewrite ?app_nil_r, ?lookup_insert_eq; eauto.
      exists [EvConnect next]. by rewrite <- app_assoc.
    + eexists c, _. split; cycle 1. { intros A body; reflexivity. }
      split; simpl; rewrite ?app_nil_r; eauto. by exists [].
  - done.
  - eexists next, _. split; cycle 1. { intros A body; reflexivity. }
    split; simpl; rewrite ?app_nil_r, ?drop_all, ?lookup_insert_eq; eauto.
    exists [EvConnect next]. by rewrite <- app_assoc.
Qed.

Ltac pyrun :=
  repeat (unfold bind, try_except, try_finally, ret, raise, conn_cursor, execute, commit,
            rollback, datetime_now, conn_of, putconn, conn_close, read_sql_query, view_of,
            st_error;
          simpl; rewrite ?lookup_insert_eq, ?Nat.eqb_refl; simpl).

(** A call that changes a table, on a working connection. *)
Lemma mutation_live {A} (failed ok : A) s handler g w :
  handles handler g -> live w ->
  exists w',
    mutation failed ok s handler w =
      (Return (match snd (stmt_outcome s w) with inl e => g e | inr _ => ok end), w') /\
    live w' /\
    w_tables w' = match snd (stmt_outcome s w) with inl _ => w_tables w | inr t => t end /\
    w_seqs w' = fst (stmt_outcome s w) /\
    w_ui w' = w_ui w /\
    w_now w' = w_now w /\
    exists c evs,
      w_trace w' = w_trace w ++ evs ++
        [EvGetconn c;
         match snd (stmt_outcome s w) with inl _ => EvRollback c | inr _ => EvCommit c end;
         EvPutconn c].
Proof.
  intros Hh Hl. destruct (acquire w Hl) as (c & w1 & [Hc Hd Hp Hm Ht Hs Hu Hn [evs Htr]] & Hrun).
  unfold mutation. rewrite Hrun. unfold stmt_outcome. rewrite <- Ht, <- Hs, <- Hn, <- Hu.
  clear Hrun Ht Hs Hn Hu Hl.
  destruct w1 as [down now t sq conns next pl memo ui tr]; simpl in *; subst.
  unfold try_finally, bind at 1, conn_cursor at 1, conn_of; simpl. rewrite Hc; simpl.
  unfold try_except, bind, datetime_now, execute, conn_of; simpl. rewrite Hc; simpl.
  destruct (exec_stmt _ _ _) as [sq' [e|v]] eqn:E; simpl.
  - rewrite Hh. pyrun. eexists; split; [reflexivity|]. simpl.
    repeat split; simpl; rewrite ?lookup_insert_eq; eauto.
    exists c, evs. by rewrite <- !app_assoc.
  - pyrun. eexists; split; [reflexivity|]. simpl.
    repeat split; simpl; rewrite ?lookup_insert_eq; eauto.
    exists c, evs. by rewrite <- !app_assoc.
Qed.

(** A list call on a working connection. *)
Lemma listing_live s message w :
  (s = SelectCustomers \/ s = SelectInventory) -> live w ->
  exists w',
    listing s message w = (Return (fetch s (w_tables w)), w') /\
    live w' /\
    w_tables w' = w_tables w /\
    w_seqs w' = w_seqs w /\
    w_ui w' = w_ui w /\
    w_now w' = w_now w.
Proof.
  intros Hs Hl. destruct (acquire w Hl) as (c & w1 & [Hc Hd Hp Hm Ht Hsq Hu Hn [evs Htr]] & Hrun).
  unfold listing. rewrite Hrun. rewrite <- Ht, <- Hsq, <- Hn, <- Hu.
  clear Hrun Ht Hsq Hn Hu Hl.
  destruct w1 as [down now t sq conns next pl memo ui tr]; simpl in *; subst.
  unfold try_finally, try_except, bind, read_sql_query, bind, conn_cursor, conn_of; simpl.
  rewrite Hc; simpl.
  unfold execute, conn_of, try_except; simpl. rewrite Hc; simpl.
  assert (exec_stmt s sq t = (sq, inr t)) as -> by (destruct Hs; subst; reflexivity).
  pyrun. eexists; split; [reflexivity|]. simpl.
  repeat split; simpl; rewrite ?lookup_insert_eq; eauto.
Qed.

(** A list call when the server is lost: the query fails, pandas cannot
    roll back, and the function displays the error and returns the empty
    frame. *)
Lemma listing_lost s message reason w :
  lost reason w ->
  exists w' msg,
    listing s message w = (Return DataFrame, w') /\
    w_ui w' = w_ui w ++ [StError msg] /\
    w_tables w' = w_tables w.
Proof.
  intros (Hd & Hm & c & Hp & Hc).
  destruct w as [down now t sq conns next [pl used] memo ui tr]; simpl in *; subst.
  unfold listing, with_get_db_connection, bind at 1, init_connection_pool, cache_resource;
    simpl.
  unfold bind at 1, getconn; simpl.
  unfold try_finally, try_except at 1, bind at 1, read_sql_query, bind at 1, conn_cursor,
    conn_of; simpl. rewrite Hc; simpl.
  unfold bind, try_except, execute, conn_of; simpl. rewrite Hc; simpl.
  unfold rollback, conn_of; simpl. rewrite lookup_insert_eq; simpl.
  unfold putconn; simpl. rewrite Nat.eqb_refl; simpl.
  unfold conn_of; simpl. rewrite lookup_insert_eq; simpl.
  unfold bind, ret; simpl. rewrite Nat.eqb_refl.
  eexists _, _. split; [reflexivity|]. simpl. rewrite app_nil_r. by split.
Qed.

(** ** Calls without a pool *)

Lemma no_pool_run {A} (body : option nat -> M A) reason w :
  no_pool reason w -> with_get_db_connection body w = body None (refused reason w).
Proof.
  destruct w as [down now t sq conns next pl memo ui tr].
  unfold no_pool, refused; simpl.
  destruct memo as [[[[]|] shown]|]; intros H; try done; subst.
  - reflexivity.
  - unfold with_get_db_connection, bind, init_connection_pool, cache_resource; simpl.
    rewrite drop_app_length. reflexivity.
Qed.

Lemma no_pool_refused reason w : no_pool reason (refused reason w).
Proof. reflexivity. Qed.

Lemma mutation_no_pool {A} (failed ok : A) s handler reason w :
  no_pool reason w -> mutation failed ok s handler w = (Return failed, refused reason w).
Proof. intros H. unfold mutation. by rewrite (no_pool_run _ reason). Qed.

Lemma listing_no_pool s message reason w :
  no_pool reason w -> listing s message w = (Return DataFrame, refused reason w).
Proof. intros H. unfold listing. by rewrite (no_pool_run _ reason). Qed.

Lemma init_database_no_pool reason w :
  no_pool reason w -> init_database w = (Return tt, refused reason w).
Proof. intros H. unfold init_database. by rewrite (no_pool_run _ reason). Qed.

(** ** Every connection handed out is taken back *)

Lemma checked_out_app a b out :
  checked_out (a ++ b) out = checked_out b (checked_out a out).
Proof.
  revert out. induction a as [|ev a IH]; intros out; simpl; [done|].
  destruct ev; apply IH.
Qed.

Lemma checked_out_quiet evs out : quiet evs -> checked_out evs out = out.
Proof.
  unfold quiet. revert out. induction evs as [|ev evs IH]; intros out H; simpl in *; [done|].
  apply andb_true_iff in H as [Hev H]. destruct ev; try discriminate; by apply IH.
Qed.

Lemma remove_first_head c l : remove_first c (c :: l) = l.
Proof. simpl. by rewrite Nat.eqb_refl. Qed.

Lemma putconn_balanced c w used :
  p_used (w_pool w) = c :: used ->
  closed (conn_of w c) = true \/ w_down w = None ->
  exists w' evs,
    putconn ThePool c w = (Return tt, w') /\
    p_used (w_pool w') = used /\ w_memo w' = w_memo w /\
    w_trace w' = w_trace w ++ evs ++ [EvPutconn c] /\ quiet evs.
Proof.
  intros Hu Hc. destruct w as [down now t sq conns next [pl us] memo ui tr]; simpl in *; subst us.
  unfold putconn; simpl. rewrite Nat.eqb_refl; simpl.
  destruct (length pl <? minconn)%nat.
  - unfold conn_of in *; simpl in *.
    destruct (default _ (conns !! c)) as [[] st] eqn:E; simpl in *.
    + unfold bind, ret; simpl. rewrite Nat.eqb_refl. by eexists _, [].
    + destruct Hc as [?| ->]; [done|].
      destruct st; unfold bind, rollback, conn_of; simpl; rewrite ?E; simpl;
        rewrite ?Nat.eqb_refl.
      * by eexists _, [].
      * eexists _, [EvRollback c]. split; [reflexivity|]. simpl. by rewrite <- !app_assoc.
      * eexists _, [EvRollback c]. split; [reflexivity|]. simpl. by rewrite <- !app_assoc.
  - unfold bind, conn_close; simpl. rewrite Nat.eqb_refl. by eexists _, [].
Qed.

Lemma with_connection_balanced {A} (body : option nat -> M A) w :
  polite body ->
  exists r w' evs,
    with_get_db_connection body w = (r, w') /\
    w_trace w' = w_trace w ++ evs /\
    checked_out evs [] = [] /\
    in_use w' = in_use w.
Proof.
  intros [Hnone Hsome].
  assert (forall w1 c evs0,
    p_used (w_pool w1) = c :: in_use w ->
    (exists sh, w_memo w1 = Some (Some ThePool, sh)) ->
    w_trace w1 = w_trace w ++ evs0 ++ [EvGetconn c] -> quiet evs0 ->
    exists r w' evs,
      try_finally (body (Some c)) (putconn ThePool c) w1 = (r, w') /\
      w_trace w' = w_trace w ++ evs /\ checked_out evs [] = [] /\ in_use w' = in_use w)
    as Hrun.
  { intros w1 c evs0 Hu [sh Hm] Ht Hq.
    destruct (Hsome c w1) as (r & w2 & evs & Hb & Hp & Hm2 & Ht2 & Hq2 & Hc).
    destruct (putconn_balanced c w2 (in_use w)) as (w3 & evs3 & Hput & Hu3 & Hm3 & Ht3 & Hq3);
      [by rewrite Hp|done|].
    unfold try_finally. rewrite Hb, Hput.
    exists r, w3, (evs0 ++ [EvGetconn c] ++ evs ++ evs3 ++ [EvPutconn c]). split; [done|].
    split; [rewrite Ht3, Ht2, Ht; by rewrite <- !app_assoc|].
    split.
    - rewrite !checked_out_app, (checked_out_quiet evs0) by done. simpl.
      rewrite (checked_out_quiet evs), (checked_out_quiet evs3) by done.
      simpl. by rewrite Nat.eqb_refl.
    - unfold in_use at 1. by rewrite Hm3, Hm2, Hm. }
  destruct w as [down now t sq conns next [pl used] memo ui tr].
  unfold with_get_db_connection, bind, init_connection_pool, cache_resource.
  destruct memo as [[[[]|] shown]|]; simpl.
  - (* a pool exists *)
    unfold getconn; simpl. destruct pl as [|c rest]; simpl.
    + destruct (length used =? maxconn)%nat.
      { eexists (Raise (Exn PoolError "connection pool exhausted")), _, [].
        simpl. by rewrite app_nil_r. }
      unfold connect; simpl. destruct down as [reason|]; simpl.
      { eexists (Raise (Exn OperationalError reason)), _, []. simpl. by rewrite app_nil_r. }
      eapply (Hrun _ next [EvConnect next]); simpl; eauto;
        rewrite <- ?app_assoc; reflexivity.
    + eapply (Hrun _ c []); simpl; eauto; reflexivity.
  - (* the creation of the pool failed before *)
    destruct (Hnone (display shown
      (World down now t sq conns next (Pool pl used) (Some (None, shown)) ui tr))) as [r Hr].
    simpl in Hr. rewrite Hr. eexists r, _, []. simpl. by rewrite app_nil_r.
  - (* first call *)
    unfold try_except, bind, SimpleConnectionPool, bind, connect; simpl.
    destruct down as [reason|]; simpl.
    + match goal with |- context [body None ?w0] => destruct (Hnone w0) as [r Hr] end.
      rewrite Hr. eexists r, _, []. simpl. by rewrite app_nil_r.
    + eapply (Hrun _ next [EvConnect next]); simpl; eauto;
        rewrite <- ?app_assoc; reflexivity.
Qed.

Ltac conn_cases c w :=
  let E := fresh "E" in
  destruct w as [down now t sq conns next pl memo ui tr];
  unfold conn_of in *; simpl in *;
  destruct (default (Connection true Idle) (conns !! c)) as [[] st] eqn:E; simpl in *.

Ltac quiet_done evs :=
  eexists _, _, evs; split; [reflexivity|]; simpl;
  rewrite ?lookup_insert_eq, ?app_nil_r, <- ?app_assoc; simpl;
  try match goal with H : default _ _ = _ |- _ => rewrite ?H end; simpl;
  repeat split; try reflexivity; try (by left); try (by right).

Lemma polite_mutation {A} (failed ok : A) s handler g :
  handles handler g ->
  polite (fun conn : option nat =>
    match conn with
    | None => ret failed
    | Some conn =>
        cursor <- conn_cursor conn ;;
        try_except
          (now <- datetime_now ;;
           execute cursor (s now) ;;
           commit conn ;;
           ret ok)
          (handler conn)
    end).
Proof.
  intros Hh. split; [intros w; by eexists|].
  intros c w. unfold bind at 1, conn_cursor at 1.
  conn_cases c w; rewrite ?E; simpl; [quiet_done (@nil event)|].
  unfold try_except, bind, datetime_now, execute, conn_of; simpl. rewrite E; simpl.
  destruct down as [reason|]; simpl.
  { rewrite Hh. unfold bind, rollback, conn_of; simpl. rewrite lookup_insert_eq; simpl.
    quiet_done (@nil event). }
  destruct st as [|view|]; simpl.
  - destruct (exec_stmt _ _ _) as [sq' [e|v]]; simpl.
    + rewrite Hh. unfold bind, rollback, conn_of; simpl. rewrite lookup_insert_eq; simpl.
      quiet_done [EvRollback c].
    + unfold commit, conn_of; simpl. rewrite lookup_insert_eq; simpl.
      quiet_done [EvCommit c].
  - destruct (exec_stmt _ _ _) as [sq' [e|v]]; simpl.
    + rewrite Hh. unfold bind, rollback, conn_of; simpl. rewrite lookup_insert_eq; simpl.
      quiet_done [EvRollback c].
    + unfold commit, conn_of; simpl. rewrite lookup_insert_eq; simpl.
      quiet_done [EvCommit c].
  - rewrite Hh. unfold bind, rollback, conn_of; simpl. rewrite E; simpl.
    quiet_done [EvRollback c].
Qed.

Lemma polite_listing s message :
  polite (fun conn : option nat =>
    match conn with
    | None => ret DataFrame
    | Some conn =>
        try_except
          (df <- read_sql_query s conn ;;
           ret df)
          (fun e =>
             st_error (message +:+ exn_str e) ;;
             ret DataFrame)
    end).
Proof.
  split; [intros w; by eexists|].
  intros c w. unfold try_except at 1, bind at 1, read_sql_query, bind at 1, conn_cursor at 1.
  conn_cases c w; rewrite ?E; simpl; [quiet_done (@nil event)|].
  unfold try_except, bind, execute, conn_of; simpl. rewrite E; simpl.
  destruct down as [reason|]; simpl.
  { unfold rollback, conn_of; simpl. rewrite lookup_insert_eq; simpl.
    quiet_done (@nil event). }
  destruct st as [|view|]; simpl.
  - destruct (exec_stmt _ _ _) as [sq' [e|v]]; simpl.
    + unfold rollback, conn_of; simpl. rewrite lookup_insert_eq; simpl.
      quiet_done [EvRollback c].
    + quiet_done (@nil event).
  - destruct (exec_stmt _ _ _) as [sq' [e|v]]; simpl.
    + unfold rollback, conn_of; simpl. rewrite lookup_insert_eq; simpl.
      quiet_done [EvRollback c].
    + quiet_done (@nil event).
  - unfold rollback, conn_of; simpl. rewrite E; simpl.
    quiet_done [EvRollback c].
Qed.

Lemma polite_init_database :
  polite (fun conn : option nat =>
    match conn with
    | None => ret tt
    | Some conn =>
        cursor <- conn_cursor conn ;;
        execute cursor CreateTables ;;
        commit conn
    end).
Proof.
  split; [intros w; by eexists|].
  intros c w. unfold bind at 1, conn_cursor at 1.
  conn_cases c w; rewrite ?E; simpl; [quiet_done (@nil event)|].
  unfold bind, execute, conn_of; simpl. rewrite E; simpl.
  destruct down as [reason|]; simpl; [quiet_done (@nil event)|].
  destruct st as [|view|]; simpl.
  - unfold commit, conn_of; simpl. rewrite lookup_insert_eq; simpl. quiet_done [EvCommit c].
  - unfold commit, conn_of; simpl. rewrite lookup_insert_eq; simpl. quiet_done [EvCommit c].
  - quiet_done (@nil event).
Qed.

Lemma fmap_run {A B} (f : A -> B) (m : M A) w r w' :
  m w = (r, w') ->
  fmap f m w = (match r with Return a => Return (f a) | Raise e => Raise e end, w').
Proof. intros H. unfold fmap, bind, ret. rewrite H. by destruct r. Qed.

(** C5. Every call, from every state, whatever its outcome (a value
    returned, from the body or early, or an exception raised): each
    connection [getconn] handed out during the call was given to [putconn]
    before the call ended, and the pool has the same connections handed out
    after the call as before it. *)
Theorem connection_returned_on_every_path (c : call) (w : world) :
  exists r w' evs,
    run_call c w = (r, w') /\
    w_trace w' = w_trace w ++ evs /\
    checked_out evs [] = [] /\
    in_use w' = in_use w.
Proof.
  assert (forall A (m : M A) (f : A -> pyval),
    (exists r w' evs, m w = (r, w') /\ w_trace w' = w_trace w ++ evs /\
       checked_out evs [] = [] /\ in_use w' = in_use w) ->
    exists r w' evs, fmap f m w = (r, w') /\ w_trace w' = w_trace w ++ evs /\
       checked_out evs [] = [] /\ in_use w' = in_use w) as Hf.
  { intros A m f (r & w' & evs & Hm & H). erewrite fmap_run by exact Hm. by eexists _, w', evs. }
  destruct c; simpl; apply Hf.
  - rewrite add_customer_shape.
    apply with_connection_balanced, (polite_mutation _ _ _ _ _ handles_add_customer).
  - rewrite get_all_customers_shape. apply with_connection_balanced, polite_listing.
  - rewrite update_customer_shape.
    apply with_connection_balanced, (polite_mutation _ _ _ _ _ (handles_rollback error_pair)).
  - rewrite delete_customer_shape.
    apply with_connection_balanced, (polite_mutation _ _ _ _ _ (handles_rollback error_text)).
  - rewrite add_inventory_item_shape.
    apply with_connection_balanced, (polite_mutation _ _ _ _ _ (handles_rollback error_text)).
  - rewrite get_all_inventory_shape. apply with_connection_balanced, polite_listing.
  - rewrite update_inventory_item_shape.
    apply with_connection_balanced, (polite_mutation _ _ _ _ _ (handles_rollback error_text)).
  - rewrite delete_inventory_item_shape.
    apply with_connection_balanced, (polite_mutation _ _ _ _ _ (handles_rollback error_text)).
  - apply with_connection_balanced, polite_init_database.
Qed.

(** Also when the call raises: the server lost, [delete_customer] ends with
    an exception and its connection is back with the pool (which drops it,
    closed as it is). *)
Example connection_returned_when_raising :
  checked_out (w_trace (snd (delete_customer 7 lost_world))) [] = [] /\
  in_use (snd (delete_customer 7 lost_world)) = [].
Proof. split; reflexivity. Qed.

(** ** Statements against the tables *)

Lemma varchar_fits n v : fits n v -> varchar n v = inr v.
Proof.
  destruct v as [s|]; simpl; [|done].
  intros H. apply Nat.leb_le in H. by rewrite H.
Qed.

Lemma customer_values_fits name email phone city :
  fits 255 name -> fits 255 email -> fits 50 phone -> fits 100 city ->
  customer_values name email phone city = inr (name, email, phone, city).
Proof.
  intros Hn He Hp Hc. unfold customer_values.
  by rewrite (varchar_fits _ _ Hn), (varchar_fits _ _ He), (varchar_fits _ _ Hp),
    (varchar_fits _ _ Hc).
Qed.

Lemma item_values_fits name category quantity price :
  fits 255 name -> fits 100 category ->
  (-2147483648 <= quantity <= 2147483647) -> Z.abs price < 10000000000 ->
  item_values name category quantity price = inr (name, category, quantity, price).
Proof.
  intros Hn Hc Hq Hp. unfold item_values, int4, decimal_10_2.
  rewrite (varchar_fits _ _ Hn), (varchar_fits _ _ Hc).
  assert ((-2147483648 <=? quantity) && (quantity <=? 2147483647) = true) as ->.
  { apply andb_true_iff. split; apply Z.leb_le; lia. }
  assert ((Z.abs price <? 10000000000) = true) as -> by (apply Z.ltb_lt; lia).
  reflexivity.
Qed.

Lemma has_email_In email rows :
  has_email email rows = true <-> exists r, In r rows /\ c_email r = email.
Proof.
  unfold has_email. rewrite existsb_exists. split; intros (r & Hr & He); exists r; split; auto.
  - by apply String.eqb_eq.
  - by apply String.eqb_eq.
Qed.

Lemma has_customer_id_In id rows :
  has_customer_id id rows = true <-> exists r, In r rows /\ c_id r = id.
Proof.
  unfold has_customer_id. rewrite existsb_exists.
  split; intros (r & Hr & He); exists r; split; auto; by apply Z.eqb_eq.
Qed.

Lemma has_item_id_In id rows :
  has_item_id id rows = true <-> exists r, In r rows /\ i_id r = id.
Proof.
  unfold has_item_id. rewrite existsb_exists.
  split; intros (r & Hr & He); exists r; split; auto; by apply Z.eqb_eq.
Qed.

Lemma no_customer_id id rows :
  (forall r, In r rows -> c_id r <> id) -> has_customer_id id rows = false.
Proof.
  intros H. destruct (has_customer_id id rows) eqn:E; [|done].
  apply has_customer_id_In in E as (r & Hr & He). by destruct (H r Hr).
Qed.


(** An INSERT whose email is the email of a row fails with an
    IntegrityError and gives back the rows unchanged. *)
Lemma insert_customer_duplicate name email phone city created seq rows :
  fits 255 name -> fits 255 (Some email) -> fits 50 phone -> fits 100 city ->
  has_email email rows = true ->
  exists e, insert_customer name (Some email) phone city created seq rows = (seq + 1, inl e)
            /\ exn_cls e = IntegrityError.
Proof.
  intros Hn He Hp Hc Hdup. unfold insert_customer.
  rewrite (customer_values_fits _ _ _ _ Hn He Hp Hc).
  destruct name as [n|]; [|by eexists].
  destruct (has_customer_id seq rows); [by eexists|].
  rewrite Hdup. by eexists.
Qed.




Lemma tables_eta t : Tables (customers t) (inventory t) = t.
Proof. by destruct t. Qed.

(** ** Creating a customer (C1) *)

Lemma add_customer_rejects_duplicate (w : world) (name phone city : pystr) (email : string) :
  live w ->
  has_email email (customers (w_tables w)) = true ->
  fits 255 name -> fits 255 (Some email) -> fits 50 phone -> fits 100 city ->
  exists e w',
    snd (stmt_outcome (InsertCustomer name (Some email) phone city) w) = inl e /\
    exn_cls e = IntegrityError /\
    add_customer name (Some email) phone city w =
      (Return (false, "Email already exists!"), w') /\
    (exists c evs, w_trace w' = w_trace w ++ evs ++ [EvGetconn c; EvRollback c; EvPutconn c]) /\
    w_tables w' = w_tables w.
Proof.
  intros Hl Hdup Hfn Hfe Hfp Hfc.
  destruct (insert_customer_duplicate name email phone city (w_now w)
              (customers_id_seq (w_seqs w)) _ Hfn Hfe Hfp Hfc Hdup) as (e & Hins & Hcls).
  assert (snd (stmt_outcome (InsertCustomer name (Some email) phone city) w) = inl e) as Hout.
  { unfold stmt_outcome, exec_stmt. by rewrite Hins. }
  destruct (mutation_live (false, "Database connection failed")
              (true, "Customer added successfully!")
              (InsertCustomer name (Some email) phone city) _ _ w handles_add_customer Hl)
    as (w' & Hrun & _ & Ht & _ & _ & _ & Htr).
  rewrite Hout in Hrun, Ht, Htr.
  exists e, w'. repeat split; try done.
  rewrite add_customer_shape, Hrun. unfold add_customer_result, is_IntegrityError.
  by rewrite Hcls.
Qed.


Lemma live_fresh_world : live fresh_world.
Proof. split; reflexivity. Defined.

Lemma live_shop_world : live shop_world.
Proof. split; [reflexivity|]. split; reflexivity. Defined.

Lemma unique_emails_shop : unique_emails (customers (w_tables shop_world)).
Proof.
  repeat (constructor; [simpl; intros H; decompose [or] H; discriminate || contradiction|]).
  constructor.
Defined.

Lemma unique_ids_shop : unique_ids (customers (w_tables shop_world)).
Proof.
  repeat (constructor; [simpl; intros H; decompose [or] H; discriminate || contradiction|]).
  constructor.
Defined.


(** ** Statements that match no row, or collide with another row *)

Lemma filter_all {A} (f : A -> bool) (l : list A) :
  (forall x, In x l -> f x = true) -> List.filter f l = l.
Proof.
  induction l as [|x l IH]; intros H; simpl; [done|].
  rewrite (H x) by (by left). f_equal. apply IH. intros y Hy. apply H. by right.
Qed.

Lemma delete_customer_rows_no_match id rows :
  (forall r, In r rows -> c_id r <> id) -> delete_customer_rows id rows = rows.
Proof.
  intros H. apply filter_all. intros r Hr. apply negb_true_iff, Z.eqb_neq. by apply H.
Qed.

Lemma delete_item_rows_no_match id rows :
  (forall r, In r rows -> i_id r <> id) -> delete_item_rows id rows = rows.
Proof.
  intros H. apply filter_all. intros r Hr. apply negb_true_iff, Z.eqb_neq. by apply H.
Qed.



(** An UPDATE of an existing row to the email of another row violates
    the unique index on email. *)
Lemma update_customer_rows_duplicate name email phone city id rows other :
  fits 255 (Some name) -> fits 255 (Some email) -> fits 50 phone -> fits 100 city ->
  has_customer_id id rows = true ->
  In other rows -> c_id other <> id -> c_email other = email ->
  update_customer_rows (Some name) (Some email) phone city id rows =
    inl (unique_violation "customers_email_key" "email" email).
Proof.
  intros Hn He Hp Hc Hid Hin Hne Hem. unfold update_customer_rows.
  rewrite (customer_values_fits _ _ _ _ Hn He Hp Hc), Hid.
  assert (has_email email (List.filter (fun r => negb (c_id r =? id)) rows) = true) as ->; [|done].
  apply has_email_In. exists other. split; [|done].
  apply filter_In. split; [done|]. by apply negb_true_iff, Z.eqb_neq.
Qed.

Lemma NoDup_map_eq {A B} (f : A -> B) (l : list A) a b :
  List.NoDup (map f l) -> In a l -> In b l -> f a = f b -> a = b.
Proof.
  induction l as [|x l IH]; intros Hnd Ha Hb Hf; [done|].
  simpl in Hnd. apply List.NoDup_cons_iff in Hnd as [Hx Hnd].
  destruct Ha as [->|Ha], Hb as [->|Hb]; auto.
  - destruct Hx. rewrite Hf. by apply in_map.
  - destruct Hx. rewrite <- Hf. by apply in_map.
Qed.


(** ** Updating and deleting by an id that matches no row (C4) *)



(** ** Updating a customer to the email of another customer (C10) *)

(** C10. [update_customer] called for an existing row with the email of
    another row, on a working connection with values that fit the columns:
    the UPDATE violates the unique index on email, the transaction is rolled
    back and the tables are as before; the result is
    [(False, "Error: " + str(e))], from the catch-all handler, and is not
    the message "Email already exists!", which [add_customer] returns for
    the same email. *)
Theorem update_customer_duplicate_email (w : world) (customer_id : Z)
    (name email : string) (phone city : pystr) (other : customer) :
  live w ->
  has_customer_id customer_id (customers (w_tables w)) = true ->
  In other (customers (w_tables w)) -> c_id other <> customer_id -> c_email other = email ->
  fits 255 (Some name) -> fits 255 (Some email) -> fits 50 phone -> fits 100 city ->
  let e := unique_violation "customers_email_key" "email" email in
  exists w' w'',
    snd (stmt_outcome (fun _ => UpdateCustomer (Some name) (Some email) phone city customer_id)
           w) = inl e /\
    update_customer customer_id (Some name) (Some email) phone city w =
      (Return (false, "Error: " +:+ exn_str e), w') /\
    "Error: " +:+ exn_str e <> "Email already exists!" /\
    (exists c evs, w_trace w' = w_trace w ++ evs ++ [EvGetconn c; EvRollback c; EvPutconn c]) /\
    w_tables w' = w_tables w /\
    add_customer (Some name) (Some email) phone city w =
      (Return (false, "Email already exists!"), w'').
Proof.
  intros Hl Hid Hin Hne Hem Hn He Hp Hc e.
  destruct (mutation_live (false, "Database connection failed")
              (true, "Customer updated successfully!")
              (fun _ => UpdateCustomer (Some name) (Some email) phone city customer_id) _ _ w
              (handles_rollback error_pair) Hl) as (w' & Hrun & _ & Ht & _ & _ & _ & Htr).
  assert (snd (stmt_outcome
                 (fun _ => UpdateCustomer (Some name) (Some email) phone city customer_id) w)
          = inl e) as Hout.
  { unfold stmt_outcome, exec_stmt.
    by rewrite (update_customer_rows_duplicate _ _ _ _ _ _ other Hn He Hp Hc Hid Hin Hne Hem). }
  rewrite Hout in Hrun, Ht, Htr.
  assert (has_email email (customers (w_tables w)) = true) as Hdup
    by (apply has_email_In; eauto).
  destruct (add_customer_rejects_duplicate w (Some name) phone city email Hl Hdup Hn He Hp Hc)
    as (e' & w'' & _ & _ & Hadd & _).
  exists w', w''. repeat split; try done.
Qed.

Lemma update_customer_duplicate_email_witness :
  let e := unique_violation "customers_email_key" "email" "ann@example.com" in
  exists w' w'',
    snd (stmt_outcome
           (fun _ => UpdateCustomer (Some "Bob") (Some "ann@example.com") None (Some "Oslo") 2)
           shop_world) = inl e /\
    update_customer 2 (Some "Bob") (Some "ann@example.com") None (Some "Oslo") shop_world =
      (Return (false, "Error: " +:+ exn_str e), w') /\
    "Error: " +:+ exn_str e <> "Email already exists!" /\
    (exists c evs,
        w_trace w' = w_trace shop_world ++ evs ++ [EvGetconn c; EvRollback c; EvPutconn c]) /\
    w_tables w' = w_tables shop_world /\
    add_customer (Some "Bob") (Some "ann@example.com") None (Some "Oslo") shop_world =
      (Return (false, "Email already exists!"), w'').
Proof.
  apply (update_customer_duplicate_email shop_world 2 "Bob" "ann@example.com" None
           (Some "Oslo") ann).
  - exact live_shop_world.
  - reflexivity.
  - simpl. right. left. reflexivity.
  - simpl. lia.
  - reflexivity.
  - simpl. lia.
  - simpl. lia.
  - exact I.
  - simpl. lia.
Defined.

(** ** Listing (C3, C6) *)



#[local] Instance customer_le_total : Total customer_le.
Proof. intros a b. unfold customer_le. lia. Qed.
#[local] Instance customer_le_trans : Transitive customer_le.
Proof. intros a b c. unfold customer_le. lia. Qed.
#[local] Instance item_le_total : Total item_le.
Proof. intros a b. unfold item_le. lia. Qed.
#[local] Instance item_le_trans : Transitive item_le.
Proof. intros a b c. unfold item_le. lia. Qed.







Lemma no_pool_stranded_world : no_pool "could not connect to server" stranded_world.
Proof. reflexivity. Defined.




(** ** Every call on a working connection, and without a pool (C2) *)

Lemma init_database_live w :
  live w ->
  exists w', init_database w = (Return tt, w') /\ live w' /\ w_tables w' = w_tables w.
Proof.
  intros Hl. destruct (acquire w Hl) as (c & w1 & [Hc Hd Hp Hm Ht Hs Hu Hn [evs Htr]] & Hrun).
  unfold init_database. rewrite Hrun. rewrite <- Ht. clear Hrun Ht Hs Hn Hu Hl.
  destruct w1 as [down now t sq conns next pl memo ui tr]; simpl in *; subst.
  unfold try_finally, bind at 1, conn_cursor at 1, conn_of; simpl. rewrite Hc; simpl.
  unfold bind, execute, conn_of; simpl. rewrite Hc; simpl.
  unfold exec_stmt; simpl. pyrun.
  eexists; split; [reflexivity|]. simpl.
  repeat split; simpl; rewrite ?lookup_insert_eq; eauto.
Qed.

Lemma call_live (c : call) (w : world) :
  live w ->
  exists w',
    run_call c w =
      (Return (reply c (w_tables w) (snd (stmt_outcome (stmt_of_call c) w))), w') /\
    live w' /\
    w_tables w' = match snd (stmt_outcome (stmt_of_call c) w) with
                  | inl _ => w_tables w
                  | inr t => t
                  end.
Proof.
  intros Hl.
  assert (forall A (ok failed : A) s handler g (f : A -> pyval) m,
    handles handler g -> m = mutation failed ok s handler ->
    exists w', fmap f m w =
                 (Return (f (match snd (stmt_outcome s w) with inl e => g e | inr _ => ok end)),
                  w') /\
               live w' /\
               w_tables w' = match snd (stmt_outcome s w) with
                             | inl _ => w_tables w
                             | inr t => t
                             end) as Hmut.
  { intros A ok failed s handler g f m Hh ->.
    destruct (mutation_live failed ok s handler g w Hh Hl) as (w' & Hrun & Hl' & Ht & _).
    exists w'. by rewrite (fmap_run _ _ _ _ _ Hrun). }
  assert (forall s message m,
    (s = SelectCustomers \/ s = SelectInventory) -> m = listing s message ->
    exists w', fmap PFrame m w = (Return (PFrame (fetch s (w_tables w))), w') /\
               live w' /\ w_tables w' = w_tables w) as Hlist.
  { intros s message m Hs ->.
    destruct (listing_live s message w Hs Hl) as (w' & Hrun & Hl' & Ht & _).
    exists w'. by rewrite (fmap_run _ _ _ _ _ Hrun). }
  destruct c; cbn [run_call stmt_of_call].
  - destruct (Hmut _ _ _ _ _ _ (fun r => PTuple (fst r) (snd r)) _ handles_add_customer
                (add_customer_shape name email phone city)) as (w' & Hrun & H).
    exists w'. split; [|done]. rewrite Hrun. f_equal. f_equal.
    unfold add_customer_result.
    destruct (snd _) as [e|]; [|done]. cbn [reply]. by destruct (is_IntegrityError e).
  - destruct (Hlist _ _ _ (or_introl eq_refl) get_all_customers_shape) as (w' & Hrun & Hl' & Ht).
    exists w'. split; [done|]. split; [done|].
    by unfold stmt_outcome, exec_stmt.
  - destruct (Hmut _ _ _ _ _ _ (fun r => PTuple (fst r) (snd r)) _ (handles_rollback error_pair)
                (update_customer_shape customer_id name email phone city)) as (w' & Hrun & H).
    exists w'. split; [|done]. rewrite Hrun. by destruct (snd _).
  - destruct (Hmut _ _ _ _ _ _ PStr _ (handles_rollback error_text)
                (delete_customer_shape customer_id)) as (w' & Hrun & H).
    exists w'. split; [|done]. rewrite Hrun. by destruct (snd _).
  - destruct (Hmut _ _ _ _ _ _ PStr _ (handles_rollback error_text)
                (add_inventory_item_shape product_name category quantity price))
      as (w' & Hrun & H).
    exists w'. split; [|done]. rewrite Hrun. by destruct (snd _).
  - destruct (Hlist _ _ _ (or_intror eq_refl) get_all_inventory_shape) as (w' & Hrun & Hl' & Ht).
    exists w'. split; [done|]. split; [done|].
    by unfold stmt_outcome, exec_stmt.
  - destruct (Hmut _ _ _ _ _ _ PStr _ (handles_rollback error_text)
                (update_inventory_item_shape item_id product_name category quantity price))
      as (w' & Hrun & H).
    exists w'. split; [|done]. rewrite Hrun. by destruct (snd _).
  - destruct (Hmut _ _ _ _ _ _ PStr _ (handles_rollback error_text)
                (delete_inventory_item_shape item_id)) as (w' & Hrun & H).
    exists w'. split; [|done]. rewrite Hrun. by destruct (snd _).
  - destruct (init_database_live w Hl) as (w' & Hrun & Hl' & Ht).
    exists w'. rewrite (fmap_run _ _ _ _ _ Hrun). split; [done|]. split; [done|].
    by unfold stmt_outcome, exec_stmt.
Qed.

Lemma call_no_pool (c : call) (reason : string) (w : world) :
  no_pool reason w -> run_call c w = (Return (refusal c), refused reason w).
Proof.
  intros Hn. destruct c; simpl.
  - rewrite add_customer_shape. by rewrite (fmap_run _ _ _ _ _ (mutation_no_pool _ _ _ _ _ _ Hn)).
  - rewrite get_all_customers_shape.
    by rewrite (fmap_run _ _ _ _ _ (listing_no_pool _ _ _ _ Hn)).
  - rewrite update_customer_shape.
    by rewrite (fmap_run _ _ _ _ _ (mutation_no_pool _ _ _ _ _ _ Hn)).
  - rewrite delete_customer_shape.
    by rewrite (fmap_run _ _ _ _ _ (mutation_no_pool _ _ _ _ _ _ Hn)).
  - rewrite add_inventory_item_shape.
    by rewrite (fmap_run _ _ _ _ _ (mutation_no_pool _ _ _ _ _ _ Hn)).
  - rewrite get_all_inventory_shape.
    by rewrite (fmap_run _ _ _ _ _ (listing_no_pool _ _ _ _ Hn)).
  - rewrite update_inventory_item_shape.
    by rewrite (fmap_run _ _ _ _ _ (mutation_no_pool _ _ _ _ _ _ Hn)).
  - rewrite delete_inventory_item_shape.
    by rewrite (fmap_run _ _ _ _ _ (mutation_no_pool _ _ _ _ _ _ Hn)).
  - by rewrite (fmap_run _ _ _ _ _ (init_database_no_pool _ _ Hn)).
Qed.

Lemma shape_of_reply c t r : shape_of c (succeeded r) (reply c t r).
Proof. destruct c, r; simpl; eauto. Qed.

Lemma shape_of_refusal c : shape_of c false (refusal c).
Proof. destruct c; simpl; eauto. Qed.

(** C2, as the specification states it, fails: [delete_customer] (like
    the three functions that change the inventory) returns its message
    alone, with no status. *)
Lemma delete_customer_returns_no_status :
  ~ (exists v w', run_call (DeleteCustomerCall 7) shop_world = (Return v, w') /\
                  is_status_message v).
Proof.
  intros (v & w' & H & status & message & ->).
  vm_compute in H. discriminate H.
Qed.

(** Past the handlers: when the server is lost while the pool keeps an open
    connection, the DELETE fails, the rollback in the handler raises in its
    turn, and the exception reaches the caller. *)
Example delete_customer_server_lost :
  fst (delete_customer 7 lost_world) = Raise already_closed.
Proof. reflexivity. Qed.

(** The pool keeps no connection after that, and the next list call
    raises from [getconn], outside every handler. *)
Example get_all_customers_after_loss :
  fst (get_all_customers (snd (delete_customer 7 lost_world))) =
  Raise (Exn OperationalError "timeout").
Proof. reflexivity. Qed.

(** C2 (amended). On a working connection, and when there is no pool, no
    call raises.  On a working connection a statement that fails is rolled
    back (the tables are as before) and reported in the value returned;
    without a pool the call returns its refusal and the error of the
    pool's creation is displayed.  Add and update customer return a status
    with a message, the status true exactly when the statement succeeded;
    the list functions return a DataFrame; delete customer and the three
    functions that change the inventory return a message alone. *)
Theorem failures_handled_at_origin (c : call) (w : world) (reason : string) :
  (live w ->
   exists v w',
     run_call c w = (Return v, w') /\
     v = reply c (w_tables w) (snd (stmt_outcome (stmt_of_call c) w)) /\
     shape_of c (succeeded (snd (stmt_outcome (stmt_of_call c) w))) v /\
     w_tables w' = match snd (stmt_outcome (stmt_of_call c) w) with
                   | inl _ => w_tables w
                   | inr t => t
                   end) /\
  (no_pool reason w ->
   exists v w',
     run_call c w = (Return v, w') /\
     v = refusal c /\
     shape_of c false v /\
     w_tables w' = w_tables w /\
     w_ui w' = w_ui w ++ [creation_error reason]).
Proof.
  split.
  - intros Hl. destruct (call_live c w Hl) as (w' & Hrun & _ & Ht).
    eexists _, w'. split; [exact Hrun|]. split; [done|]. split; [|done].
    apply shape_of_reply.
  - intros Hn. eexists _, _. split; [by apply call_no_pool|]. split; [done|].
    split; [apply shape_of_refusal|]. by split.
Qed.

Lemma failures_handled_at_origin_witness :
  (exists v w',
     run_call (AddInventoryItem None (Some "Hardware") 1 100) shop_world = (Return v, w') /\
     v = reply (AddInventoryItem None (Some "Hardware") 1 100) (w_tables shop_world)
           (snd (stmt_outcome
                   (stmt_of_call (AddInventoryItem None (Some "Hardware") 1 100)) shop_world)) /\
     shape_of (AddInventoryItem None (Some "Hardware") 1 100)
       (succeeded (snd (stmt_outcome
                          (stmt_of_call (AddInventoryItem None (Some "Hardware") 1 100))
                          shop_world))) v /\
     w_tables w' =
       match snd (stmt_outcome (stmt_of_call (AddInventoryItem None (Some "Hardware") 1 100))
                    shop_world) with
       | inl _ => w_tables shop_world
       | inr t => t
       end) /\
  (exists v w',
     run_call (DeleteCustomerCall 1) stranded_world = (Return v, w') /\
     v = refusal (DeleteCustomerCall 1) /\
     shape_of (DeleteCustomerCall 1) false v /\
     w_tables w' = w_tables stranded_world /\
     w_ui w' = w_ui stranded_world ++ [creation_error "could not connect to server"]).
Proof.
  split.
  - apply (proj1 (failures_handled_at_origin
                    (AddInventoryItem None (Some "Hardware") 1 100) shop_world "")).
    exact live_shop_world.
  - apply (proj2 (failures_handled_at_origin (DeleteCustomerCall 1) stranded_world
                    "could not connect to server")).
    exact no_pool_stranded_world.
Defined.

(** ** A pool that could not be created (C9) *)

Lemma stored_failure_no_pool reason w :
  w_memo w = Some (None, [creation_error reason]) -> no_pool reason w.
Proof. unfold no_pool. by intros ->. Qed.

Lemma stored_failure_step reason w w' :
  process_step w w' ->
  w_memo w = Some (None, [creation_error reason]) ->
  w_memo w' = Some (None, [creation_error reason]) /\ w_trace w' = w_trace w.
Proof.
  intros [c w0|down now t sq ui w0] Hm.
  - by rewrite (call_no_pool c reason w0 (stored_failure_no_pool _ _ Hm)).
  - done.
Qed.

Lemma stored_failure_steps reason w w' :
  rtc process_step w w' ->
  w_memo w = Some (None, [creation_error reason]) ->
  w_memo w' = Some (None, [creation_error reason]) /\ w_trace w' = w_trace w.
Proof.
  induction 1 as [w|w w1 w' Hstep _ IH]; intros Hm; [done|].
  destruct (stored_failure_step reason w w1 Hstep Hm) as [Hm1 Ht1].
  destruct (IH Hm1) as [Hm' Ht']. split; [done|]. by rewrite Ht'.
Qed.

(** C9. When the first call of the process cannot create the pool, the
    cache stores "no pool" together with the error displayed.  After any
    number of further calls and changes of the environment (the server
    becoming reachable among them) the entry is still there: every call
    returns its refusal, the stored error is displayed again, and no
    connection is ever attempted. *)
Theorem failed_pool_is_memoized (w w' : world) (reason : string) (first c : call) :
  w_memo w = None ->
  w_down w = Some reason ->
  rtc process_step (snd (run_call first w)) w' ->
  run_call first w = (Return (refusal first), refused reason w) /\
  w_memo w' = Some (None, [creation_error reason]) /\
  run_call c w' = (Return (refusal c), refused reason w') /\
  w_ui (snd (run_call c w')) = w_ui w' ++ [creation_error reason] /\
  w_memo (snd (run_call c w')) = Some (None, [creation_error reason]) /\
  w_trace (snd (run_call c w')) = w_trace w.
Proof.
  intros Hm Hd Hsteps.
  assert (no_pool reason w) as Hn by (unfold no_pool; by rewrite Hm).
  pose proof (call_no_pool first reason w Hn) as Hfirst.
  rewrite Hfirst in Hsteps. simpl in Hsteps.
  destruct (stored_failure_steps reason _ _ Hsteps eq_refl) as [Hm' Ht'].
  pose proof (call_no_pool c reason w' (stored_failure_no_pool _ _ Hm')) as Hc.
  rewrite Hc. simpl. repeat split; try done.
Qed.

Lemma failed_pool_is_memoized_witness :
  run_call InitDatabase unreachable_world =
    (Return (refusal InitDatabase), refused "could not connect to server" unreachable_world) /\
  w_memo recovered_world = Some (None, [creation_error "could not connect to server"]) /\
  run_call (AddCustomer (Some "Cleo") (Some "cleo@example.com") None None) recovered_world =
    (Return (refusal (AddCustomer (Some "Cleo") (Some "cleo@example.com") None None)),
     refused "could not connect to server" recovered_world) /\
  w_ui (snd (run_call (AddCustomer (Some "Cleo") (Some "cleo@example.com") None None)
               recovered_world)) =
    w_ui recovered_world ++ [creation_error "could not connect to server"] /\
  w_memo (snd (run_call (AddCustomer (Some "Cleo") (Some "cleo@example.com") None None)
                 recovered_world)) =
    Some (None, [creation_error "could not connect to server"]) /\
  w_trace (snd (run_call (AddCustomer (Some "Cleo") (Some "cleo@example.com") None None)
                  recovered_world)) = w_trace unreachable_world.
Proof.
  apply (failed_pool_is_memoized unreachable_world recovered_world
           "could not connect to server" InitDatabase
           (AddCustomer (Some "Cleo") (Some "cleo@example.com") None None)).
  - reflexivity.
  - reflexivity.
  - eapply rtc_l; [apply (step_call GetAllCustomers)|].
    eapply rtc_l; [apply (step_environment None noon (Tables [bob; ann] [gadget; widget])
                            (Sequences 3 3) [])|].
    apply rtc_refl.
Defined.

(** ** Delimited text read back (C8) *)

Module Csv.













End Csv.

(** ** The "View All" tabs (C7, C8) *)










Example format_money_widget : format_money (10 * 250) = "$25.00".
Proof. reflexivity. Qed.

Example format_money_grouped : format_money 123456789 = "$1,234,567.89".
Proof. reflexivity. Qed.

Example inventory_value_shop : inventory_value (inventory (w_tables shop_world)) = 8497.
Proof. reflexivity. Qed.

(** One item ("Widget", "Hardware", 10, 2.50) added to an empty inventory:
    the tab shows a total of $25.00. *)
Example widget_scenario :
  In (StMetric "Total Inventory Value" "$25.00")
     (w_ui (snd (inventory_view_all
                   (snd (add_inventory_item (Some "Widget") (Some "Hardware") 10 250
                           fresh_world))))).
Proof. vm_compute. right. right. left. reflexivity. Qed.




Example export_of_shop_customers :
  parse_csv (to_csv (fetch SelectCustomers (w_tables shop_world))) =
  Some [["id"; "name"; "email"; "phone"; "city"; "created_date"];
        ["1"; "Ann"; "ann@example.com"; "555-0100"; "Paris"; "2024-05-17 12:00:00.000000"];
        ["2"; "Bob"; "bob@example.com"; ""; "Oslo"; "2024-05-17 12:00:00.000000"]].
Proof. reflexivity. Qed.

(** A field with a comma, a quote and a line break is quoted when written
    and comes back as it was. *)
Example export_of_quoted_field :
  let field := "Doe, " +:+ dquote +:+ "Jo" +:+ dquote +:+ newline +:+ "Jr" in
  parse_csv (csv_lines [["name"; "city"]; [field; "Rome"]]) =
  Some [["name"; "city"]; [field; "Rome"]].
Proof. reflexivity. Qed.





(** * More of the data access layer *)

(** ** What a call does on a working connection *)

Lemma init_database_effect w :
  live w ->
  exists w',
    init_database w = (Return tt, w') /\ live w' /\
    w_tables w' = w_tables w /\ w_seqs w' = w_seqs w /\
    w_ui w' = w_ui w /\ w_now w' = w_now w.
Proof.
  intros Hl. destruct (acquire w Hl) as (c & w1 & [Hc Hd Hp Hm Ht Hs Hu Hn [evs Htr]] & Hrun).
  unfold init_database. rewrite Hrun. rewrite <- Ht, <- Hs, <- Hu, <- Hn.
  clear Hrun Ht Hs Hn Hu Hl.
  destruct w1 as [down now t sq conns next pl memo ui tr]; simpl in *; subst.
  unfold try_finally, bind at 1, conn_cursor at 1, conn_of; simpl. rewrite Hc; simpl.
  unfold bind, execute, conn_of; simpl. rewrite Hc; simpl.
  unfold exec_stmt; simpl. pyrun.
  eexists; split; [reflexivity|]. simpl.
  repeat split; simpl; rewrite ?lookup_insert_eq; eauto.
Qed.

(** Every call on a working connection: its value, and the state it
    leaves. *)
Lemma call_effect (c : call) (w : world) :
  live w ->
  exists w',
    run_call c w =
      (Return (reply c (w_tables w) (snd (stmt_outcome (stmt_of_call c) w))), w') /\
    live w' /\
    w_tables w' = match snd (stmt_outcome (stmt_of_call c) w) with
                  | inl _ => w_tables w
                  | inr t => t
                  end /\
    w_seqs w' = fst (stmt_outcome (stmt_of_call c) w) /\
    w_ui w' = w_ui w /\
    w_now w' = w_now w.
Proof.
  intros Hl.
  destruct (call_live c w Hl) as (w' & Hrun & Hl' & Ht).
  exists w'. split; [done|]. split; [done|]. split; [done|].
  assert (forall A (ok failed : A) s handler g (f : A -> pyval) m,
    handles handler g -> m = mutation failed ok s handler ->
    run_call c w = fmap f m w ->
    w_seqs w' = fst (stmt_outcome s w) /\ w_ui w' = w_ui w /\ w_now w' = w_now w) as Hmut.
  { intros A ok failed s handler g f m Hh -> Hc.
    destruct (mutation_live failed ok s handler g w Hh Hl) as (w2 & Hrun2 & _ & _ & Hs & Hu & Hn & _).
    rewrite Hc, (fmap_run _ _ _ _ _ Hrun2) in Hrun. by injection Hrun as _ <-. }
  assert (forall s message m,
    (s = SelectCustomers \/ s = SelectInventory) -> m = listing s message ->
    run_call c w = fmap PFrame m w ->
    w_seqs w' = w_seqs w /\ w_ui w' = w_ui w /\ w_now w' = w_now w) as Hlist.
  { intros s message m Hs -> Hc.
    destruct (listing_live s message w Hs Hl) as (w2 & Hrun2 & _ & _ & Hsq & Hu & Hn).
    rewrite Hc, (fmap_run _ _ _ _ _ Hrun2) in Hrun. by injection Hrun as _ <-. }
  destruct c; cbn [run_call stmt_of_call] in *.
  - eapply Hmut; [apply handles_add_customer|apply add_customer_shape|reflexivity].
  - destruct (Hlist _ _ _ (or_introl eq_refl) get_all_customers_shape eq_refl) as (? & ? & ?).
    by unfold stmt_outcome, exec_stmt.
  - eapply Hmut; [apply (handles_rollback error_pair)|apply update_customer_shape|reflexivity].
  - eapply Hmut; [apply (handles_rollback error_text)|apply delete_customer_shape|reflexivity].
  - eapply Hmut; [apply (handles_rollback error_text)|apply add_inventory_item_shape|reflexivity].
  - destruct (Hlist _ _ _ (or_intror eq_refl) get_all_inventory_shape eq_refl) as (? & ? & ?).
    by unfold stmt_outcome, exec_stmt.
  - eapply Hmut; [apply (handles_rollback error_text)|apply update_inventory_item_shape|
                   reflexivity].
  - eapply Hmut; [apply (handles_rollback error_text)|apply delete_inventory_item_shape|
                   reflexivity].
  - destruct (init_database_effect w Hl) as (w2 & Hrun2 & _ & _ & Hs & Hu & Hn).
    rewrite (fmap_run _ _ _ _ _ Hrun2) in Hrun. injection Hrun as <-.
    by unfold stmt_outcome, exec_stmt.
Qed.

(** ** Creating customers *)

Lemma insert_customer_fresh name email phone city created seq rows :
  fits 255 (Some name) -> fits 255 (Some email) -> fits 50 phone -> fits 100 city ->
  has_customer_id seq rows = false -> has_email email rows = false ->
  insert_customer (Some name) (Some email) phone city created seq rows =
    (seq + 1, inr (rows ++ [Customer seq name email phone city created])).
Proof.
  intros Hn He Hp Hc Hid Hem. unfold insert_customer.
  by rewrite (customer_values_fits _ _ _ _ Hn He Hp Hc), Hid, Hem.
Qed.

Lemma ids_below_fresh seq rows :
  (forall r, In r rows -> c_id r < seq) -> has_customer_id seq rows = false.
Proof. intros H. apply no_customer_id. intros r Hr. specialize (H r Hr). lia. Qed.

Lemma no_email email rows :
  (forall r, In r rows -> c_email r <> email) -> has_email email rows = false.
Proof.
  intros H. destruct (has_email email rows) eqn:E; [|done].
  apply has_email_In in E as (r & Hr & He). by destruct (H r Hr).
Qed.





Lemma consistent_shop : consistent (w_tables shop_world) (w_seqs shop_world).
Proof.
  split.
  - exact unique_ids_shop.
  - exact unique_emails_shop.
  - repeat (constructor; [simpl; intros H; decompose [or] H; discriminate || contradiction|]).
    constructor.
  - simpl. intros r [<-|[<-|[]]]; simpl; lia.
  - simpl. intros r [<-|[<-|[]]]; simpl; lia.
Defined.


(** X2. [add_customer] reports every IntegrityError as a duplicate email.
    Called without a name or without an email, on a working connection, the
    INSERT violates NOT NULL, and the function returns
    [(False, "Email already exists!")] whatever emails the table holds; the
    tables are as before. *)
Theorem add_customer_missing_value (w : world) (name email phone city : pystr) :
  live w ->
  name = None \/ email = None ->
  fits 255 name -> fits 255 email -> fits 50 phone -> fits 100 city ->
  exists e w',
    snd (stmt_outcome (InsertCustomer name email phone city) w) = inl e /\
    (e = not_null_violation "name" "customers" \/
     e = not_null_violation "email" "customers") /\
    add_customer name email phone city w = (Return (false, "Email already exists!"), w') /\
    w_tables w' = w_tables w.
Proof.
  intros Hl Hnull Hn He Hp Hc.
  destruct (mutation_live (false, "Database connection failed")
              (true, "Customer added successfully!")
              (InsertCustomer name email phone city) _ _ w
              handles_add_customer Hl) as (w' & Hrun & _ & Ht & _).
  assert (exists e, snd (stmt_outcome (InsertCustomer name email phone city) w) = inl e /\
                    (e = not_null_violation "name" "customers" \/
                     e = not_null_violation "email" "customers")) as (e & Hout & He').
  { unfold stmt_outcome, exec_stmt, insert_customer.
    rewrite (customer_values_fits _ _ _ _ Hn He Hp Hc).
    destruct name as [n|]; [|eexists; split; [reflexivity|by left]].
    destruct Hnull as [?| ->]; [done|]. eexists; split; [reflexivity|by right]. }
  rewrite Hout in Hrun, Ht.
  exists e, w'. split; [done|]. split; [done|]. split; [|done].
  rewrite add_customer_shape, Hrun. by destruct He' as [-> | ->].
Qed.

Lemma add_customer_missing_value_witness :
  exists e w',
    snd (stmt_outcome (InsertCustomer None (Some "new@example.com") None None) fresh_world)
      = inl e /\
    (e = not_null_violation "name" "customers" \/
     e = not_null_violation "email" "customers") /\
    add_customer None (Some "new@example.com") None None fresh_world =
      (Return (false, "Email already exists!"), w') /\
    w_tables w' = w_tables fresh_world.
Proof.
  apply (add_customer_missing_value fresh_world None (Some "new@example.com") None None).
  - exact live_fresh_world.
  - left. reflexivity.
  - exact I.
  - simpl. lia.
  - exact I.
  - exact I.
Defined.

(** ** Deleting and updating customers *)

Lemma delete_customer_rows_In id rows r :
  In r (delete_customer_rows id rows) <-> In r rows /\ c_id r <> id.
Proof.
  unfold delete_customer_rows. rewrite filter_In, negb_true_iff, Z.eqb_neq. tauto.
Qed.

Lemma delete_customer_rows_twice id rows :
  delete_customer_rows id (delete_customer_rows id rows) = delete_customer_rows id rows.
Proof.
  apply delete_customer_rows_no_match. intros r Hr.
  apply delete_customer_rows_In in Hr. tauto.
Qed.

Lemma delete_customer_effect id w :
  live w ->
  exists w',
    delete_customer id w = (Return "Customer deleted successfully!", w') /\
    live w' /\
    w_tables w' = Tables (delete_customer_rows id (customers (w_tables w)))
                         (inventory (w_tables w)).
Proof.
  intros Hl.
  destruct (mutation_live "Database connection failed" "Customer deleted successfully!"
              (fun _ => DeleteCustomer id) _ _ w (handles_rollback error_text) Hl)
    as (w' & Hrun & Hl' & Ht & _).
  exists w'. by rewrite delete_customer_shape.
Qed.

(** X3. [delete_customer] on a working connection, for any id: it returns
    its success message; the customers left are exactly the rows of before
    with another id; the inventory is untouched; and deleting the same id
    once more succeeds again and changes nothing. *)
Theorem delete_customer_removes (w : world) (customer_id : Z) :
  live w ->
  exists w1 w2,
    delete_customer customer_id w = (Return "Customer deleted successfully!", w1) /\
    (forall r, In r (customers (w_tables w1)) <->
               In r (customers (w_tables w)) /\ c_id r <> customer_id) /\
    inventory (w_tables w1) = inventory (w_tables w) /\
    delete_customer customer_id w1 = (Return "Customer deleted successfully!", w2) /\
    w_tables w2 = w_tables w1.
Proof.
  intros Hl.
  destruct (delete_customer_effect customer_id w Hl) as (w1 & Hrun1 & Hl1 & Ht1).
  destruct (delete_customer_effect customer_id w1 Hl1) as (w2 & Hrun2 & _ & Ht2).
  exists w1, w2. split; [done|].
  split; [intros r; rewrite Ht1; apply delete_customer_rows_In|].
  split; [by rewrite Ht1|]. split; [done|].
  rewrite Ht2, Ht1. simpl. by rewrite delete_customer_rows_twice.
Qed.

Lemma delete_customer_removes_witness :
  exists w1 w2,
    delete_customer 1 shop_world = (Return "Customer deleted successfully!", w1) /\
    (forall r, In r (customers (w_tables w1)) <->
               In r (customers (w_tables shop_world)) /\ c_id r <> 1) /\
    inventory (w_tables w1) = inventory (w_tables shop_world) /\
    delete_customer 1 w1 = (Return "Customer deleted successfully!", w2) /\
    w_tables w2 = w_tables w1.
Proof. apply (delete_customer_removes shop_world 1). exact live_shop_world. Defined.

(** X4. Creating a customer and then deleting the id it was given puts
    the tables back as they were (the sequence has moved on). *)
Theorem add_then_delete_customer (w : world) (name email : string) (phone city : pystr) :
  live w ->
  consistent (w_tables w) (w_seqs w) ->
  (forall r, In r (customers (w_tables w)) -> c_email r <> email) ->
  fits 255 (Some name) -> fits 255 (Some email) -> fits 50 phone -> fits 100 city ->
  exists w1 w2,
    add_customer (Some name) (Some email) phone city w =
      (Return (true, "Customer added successfully!"), w1) /\
    delete_customer (customers_id_seq (w_seqs w)) w1 =
      (Return "Customer deleted successfully!", w2) /\
    w_tables w2 = w_tables w /\
    customers_id_seq (w_seqs w2) = customers_id_seq (w_seqs w) + 1.
Proof.
  intros Hl Hcons Hnew Hn He Hp Hc.
  destruct Hcons as [_ _ _ Hseq _].
  destruct (mutation_live (false, "Database connection failed")
              (true, "Customer added successfully!")
              (InsertCustomer (Some name) (Some email) phone city) _ _ w
              handles_add_customer Hl) as (w1 & Hrun & Hl1 & Ht & Hs & _).
  unfold stmt_outcome, exec_stmt in Hrun, Ht, Hs.
  rewrite (insert_customer_fresh _ _ _ _ _ _ _ Hn He Hp Hc
             (ids_below_fresh _ _ Hseq) (no_email _ _ Hnew)) in Hrun, Ht, Hs.
  simpl in Hrun, Ht, Hs.
  destruct (mutation_live "Database connection failed" "Customer deleted successfully!"
              (fun _ => DeleteCustomer (customers_id_seq (w_seqs w))) _ _ w1
              (handles_rollback error_text) Hl1) as (w2 & Hrun2 & _ & Ht2 & Hs2 & _).
  unfold stmt_outcome, exec_stmt in Hrun2, Ht2, Hs2. simpl in Hrun2, Ht2, Hs2.
  exists w1, w2. split; [by rewrite add_customer_shape|].
  split; [by rewrite delete_customer_shape|]. split.
  - rewrite Ht2, Ht. simpl. unfold delete_customer_rows.
    rewrite List.filter_app. simpl. rewrite Z.eqb_refl. simpl. rewrite app_nil_r.
    rewrite filter_all; [apply tables_eta|].
    intros r Hr. apply negb_true_iff, Z.eqb_neq. specialize (Hseq r Hr). lia.
  - by rewrite Hs2, Hs.
Qed.

Lemma add_then_delete_customer_witness :
  exists w1 w2,
    add_customer (Some "Cleo") (Some "cleo@example.com") None None shop_world =
      (Return (true, "Customer added successfully!"), w1) /\
    delete_customer (customers_id_seq (w_seqs shop_world)) w1 =
      (Return "Customer deleted successfully!", w2) /\
    w_tables w2 = w_tables shop_world /\
    customers_id_seq (w_seqs w2) = customers_id_seq (w_seqs shop_world) + 1.
Proof.
  apply (add_then_delete_customer shop_world "Cleo" "cleo@example.com" None None).
  - exact live_shop_world.
  - exact consistent_shop.
  - simpl. intros r [<-|[<-|[]]]; discriminate.
  - simpl. lia.
  - simpl. lia.
  - exact I.
  - exact I.
Defined.

Lemma update_customer_rows_overwrite r name email phone city rows :
  In r rows ->
  (forall x, In x rows -> c_id x <> c_id r -> c_email x <> email) ->
  fits 255 (Some name) -> fits 255 (Some email) -> fits 50 phone -> fits 100 city ->
  update_customer_rows (Some name) (Some email) phone city (c_id r) rows =
    inr (map (fun x => if c_id x =? c_id r then overwritten name email phone city x else x)
             rows).
Proof.
  intros Hin Hfree Hn He Hp Hc. unfold update_customer_rows.
  rewrite (customer_values_fits _ _ _ _ Hn He Hp Hc).
  assert (has_customer_id (c_id r) rows = true) as -> by (apply has_customer_id_In; eauto).
  destruct (has_email email _) eqn:E; [|done].
  apply has_email_In in E as (x & Hx & Hxe).
  apply filter_In in Hx as [Hx Hne]. apply negb_true_iff, Z.eqb_neq in Hne.
  by destruct (Hfree x Hx Hne).
Qed.

(** X5. [update_customer] overwrites the four fields of the row it names.
    On a working connection, for a row [r] of a table with unique ids, with
    values that fit the columns and an email no other row holds: the call
    succeeds; afterwards the table holds [r] with the new name, email, phone
    and city and its old id and created_date, together with the rows of
    other ids, unchanged; the inventory is untouched. *)
Theorem update_customer_overwrites (w : world) (r : customer) (name email : string)
    (phone city : pystr) :
  live w ->
  unique_ids (customers (w_tables w)) ->
  In r (customers (w_tables w)) ->
  (forall x, In x (customers (w_tables w)) -> c_id x <> c_id r -> c_email x <> email) ->
  fits 255 (Some name) -> fits 255 (Some email) -> fits 50 phone -> fits 100 city ->
  exists w',
    update_customer (c_id r) (Some name) (Some email) phone city w =
      (Return (true, "Customer updated successfully!"), w') /\
    (forall x, In x (customers (w_tables w')) <->
               x = overwritten name email phone city r \/
               (In x (customers (w_tables w)) /\ c_id x <> c_id r)) /\
    length (customers (w_tables w')) = length (customers (w_tables w)) /\
    inventory (w_tables w') = inventory (w_tables w).
Proof.
  intros Hl Hids Hin Hfree Hn He Hp Hc.
  destruct (mutation_live (false, "Database connection failed")
              (true, "Customer updated successfully!")
              (fun _ => UpdateCustomer (Some name) (Some email) phone city (c_id r)) _ _ w
              (handles_rollback error_pair) Hl) as (w' & Hrun & _ & Ht & _).
  unfold stmt_outcome, exec_stmt in Hrun, Ht.
  rewrite (update_customer_rows_overwrite r _ _ _ _ _ Hin Hfree Hn He Hp Hc) in Hrun, Ht.
  simpl in Hrun, Ht.
  exists w'. split; [by rewrite update_customer_shape|].
  rewrite Ht. simpl. split; [|split; [by rewrite length_map|done]].
  intros x. rewrite in_map_iff. split.
  - intros (y & <- & Hy). destruct (c_id y =? c_id r) eqn:E.
    + left. apply Z.eqb_eq in E.
      by rewrite (NoDup_map_eq c_id _ y r Hids Hy Hin E).
    + right. split; [done|]. by apply Z.eqb_neq.
  - intros [-> | [Hx Hne]].
    + exists r. split; [|done]. by rewrite Z.eqb_refl.
    + exists x. split; [|done]. by apply Z.eqb_neq in Hne as ->.
Qed.

Lemma update_customer_overwrites_witness :
  exists w',
    update_customer (c_id bob) (Some "Robert") (Some "rob@example.com") (Some "555-0199") None
      shop_world = (Return (true, "Customer updated successfully!"), w') /\
    (forall x, In x (customers (w_tables w')) <->
               x = overwritten "Robert" "rob@example.com" (Some "555-0199") None bob \/
               (In x (customers (w_tables shop_world)) /\ c_id x <> c_id bob)) /\
    length (customers (w_tables w')) = length (customers (w_tables shop_world)) /\
    inventory (w_tables w') = inventory (w_tables shop_world).
Proof.
  apply (update_customer_overwrites shop_world bob "Robert" "rob@example.com"
           (Some "555-0199") None).
  - exact live_shop_world.
  - exact unique_ids_shop.
  - simpl. left. reflexivity.
  - simpl. intros x [<-|[<-|[]]] H; [by destruct H|discriminate].
  - simpl. lia.
  - simpl. lia.
  - simpl. lia.
  - exact I.
Defined.

(** ** The inventory *)






Lemma update_item_rows_overwrite r name category quantity price now rows :
  In r rows ->
  fits 255 (Some name) -> fits 100 category ->
  (-2147483648 <= quantity <= 2147483647) -> Z.abs price < 10000000000 ->
  update_item_rows (Some name) category quantity price now (i_id r) rows =
    inr (map (fun x => if i_id x =? i_id r
                       then restocked name category quantity price now x else x) rows).
Proof.
  intros Hin Hn Hc Hq Hp. unfold update_item_rows.
  rewrite (item_values_fits _ _ _ _ Hn Hc Hq Hp).
  by assert (has_item_id (i_id r) rows = true) as -> by (apply has_item_id_In; eauto).
Qed.

(** X7. [update_inventory_item] overwrites the row it names and stamps it.
    On a working connection, for a row [r] of an inventory with unique ids,
    with a product name and values that fit the columns: the call succeeds;
    afterwards the table holds [r] with the new name, category, quantity and
    price, its old id, and the time of the call as last_updated, together
    with the rows of other ids, unchanged; the customers are untouched. *)
Theorem update_inventory_item_overwrites (w : world) (r : item) (product_name : string)
    (category : pystr) (quantity price : Z) :
  live w ->
  List.NoDup (map i_id (inventory (w_tables w))) ->
  In r (inventory (w_tables w)) ->
  fits 255 (Some product_name) -> fits 100 category ->
  (-2147483648 <= quantity <= 2147483647) -> Z.abs price < 10000000000 ->
  exists w',
    update_inventory_item (i_id r) (Some product_name) category quantity price w =
      (Return "Inventory item updated successfully!", w') /\
    (forall x, In x (inventory (w_tables w')) <->
               x = restocked product_name category quantity price (w_now w) r \/
               (In x (inventory (w_tables w)) /\ i_id x <> i_id r)) /\
    length (inventory (w_tables w')) = length (inventory (w_tables w)) /\
    customers (w_tables w') = customers (w_tables w).
Proof.
  intros Hl Hids Hin Hn Hc Hq Hp.
  destruct (mutation_live "Database connection failed" "Inventory item updated successfully!"
              (fun now => UpdateInventory (Some product_name) category quantity price now
                            (i_id r)) _ _ w
              (handles_rollback error_text) Hl) as (w' & Hrun & _ & Ht & _).
  unfold stmt_outcome, exec_stmt in Hrun, Ht.
  rewrite (update_item_rows_overwrite r _ _ _ _ _ _ Hin Hn Hc Hq Hp) in Hrun, Ht.
  simpl in Hrun, Ht.
  exists w'. split; [by rewrite update_inventory_item_shape|].
  rewrite Ht. simpl. split; [|split; [by rewrite length_map|done]].
  intros x. rewrite in_map_iff. split.
  - intros (y & <- & Hy). destruct (i_id y =? i_id r) eqn:E.
    + left. apply Z.eqb_eq in E.
      by rewrite (NoDup_map_eq i_id _ y r Hids Hy Hin E).
    + right. split; [done|]. by apply Z.eqb_neq.
  - intros [-> | [Hx Hne]].
    + exists r. split; [|done]. by rewrite Z.eqb_refl.
    + exists x. split; [|done]. by apply Z.eqb_neq in Hne as ->.
Qed.

Lemma update_inventory_item_overwrites_witness :
  exists w',
    update_inventory_item (i_id widget) (Some "Widget XL") None 0 (-5) shop_world =
      (Return "Inventory item updated successfully!", w') /\
    (forall x, In x (inventory (w_tables w')) <->
               x = restocked "Widget XL" None 0 (-5) (w_now shop_world) widget \/
               (In x (inventory (w_tables shop_world)) /\ i_id x <> i_id widget)) /\
    length (inventory (w_tables w')) = length (inventory (w_tables shop_world)) /\
    customers (w_tables w') = customers (w_tables shop_world).
Proof.
  apply (update_inventory_item_overwrites shop_world widget "Widget XL" None 0 (-5)).
  - exact live_shop_world.
  - exact (consistent_item_ids _ _ consistent_shop).
  - simpl. right. left. reflexivity.
  - simpl. lia.
  - exact I.
  - lia.
  - simpl. lia.
Defined.

Lemma delete_item_rows_In id rows r :
  In r (delete_item_rows id rows) <-> In r rows /\ i_id r <> id.
Proof.
  unfold delete_item_rows. rewrite filter_In, negb_true_iff, Z.eqb_neq. tauto.
Qed.

Lemma delete_inventory_item_effect id w :
  live w ->
  exists w',
    delete_inventory_item id w = (Return "Inventory item deleted successfully!", w') /\
    live w' /\
    w_tables w' = Tables (customers (w_tables w))
                         (delete_item_rows id (inventory (w_tables w))).
Proof.
  intros Hl.
  destruct (mutation_live "Database connection failed" "Inventory item deleted successfully!"
              (fun _ => DeleteInventory id) _ _ w (handles_rollback error_text) Hl)
    as (w' & Hrun & Hl' & Ht & _).
  exists w'. by rewrite delete_inventory_item_shape.
Qed.

(** X8. [delete_inventory_item] on a working connection, for any id: it
    returns its success message; the items left are exactly the rows of
    before with another id; the customers are untouched; and deleting the
    same id once more succeeds again and changes nothing. *)
Theorem delete_inventory_item_removes (w : world) (item_id : Z) :
  live w ->
  exists w1 w2,
    delete_inventory_item item_id w = (Return "Inventory item deleted successfully!", w1) /\
    (forall r, In r (inventory (w_tables w1)) <->
               In r (inventory (w_tables w)) /\ i_id r <> item_id) /\
    customers (w_tables w1) = customers (w_tables w) /\
    delete_inventory_item item_id w1 = (Return "Inventory item deleted successfully!", w2) /\
    w_tables w2 = w_tables w1.
Proof.
  intros Hl.
  destruct (delete_inventory_item_effect item_id w Hl) as (w1 & Hrun1 & Hl1 & Ht1).
  destruct (delete_inventory_item_effect item_id w1 Hl1) as (w2 & Hrun2 & _ & Ht2).
  exists w1, w2. split; [done|].
  split; [intros r; rewrite Ht1; apply delete_item_rows_In|].
  split; [by rewrite Ht1|]. split; [done|].
  rewrite Ht2, Ht1. simpl. f_equal.
  apply delete_item_rows_no_match. intros r Hr. apply delete_item_rows_In in Hr. tauto.
Qed.

Lemma delete_inventory_item_removes_witness :
  exists w1 w2,
    delete_inventory_item 2 shop_world =
      (Return "Inventory item deleted successfully!", w1) /\
    (forall r, In r (inventory (w_tables w1)) <->
               In r (inventory (w_tables shop_world)) /\ i_id r <> 2) /\
    customers (w_tables w1) = customers (w_tables shop_world) /\
    delete_inventory_item 2 w1 = (Return "Inventory item deleted successfully!", w2) /\
    w_tables w2 = w_tables w1.
Proof. apply (delete_inventory_item_removes shop_world 2). exact live_shop_world. Defined.

(** ** Two tables with nothing in common *)

(** X9. The two tables are kept apart.  On a working connection, a call of
    one of the four customer functions leaves the inventory and its
    sequence as they are, and a call of one of the four inventory functions
    leaves the customers and their sequence as they are, whether the call
    succeeds or fails. *)
Theorem calls_keep_to_their_table (c1 c2 : call) (w : world) :
  live w ->
  on_customers c1 = true ->
  on_inventory c2 = true ->
  (inventory (w_tables (snd (run_call c1 w))) = inventory (w_tables w) /\
   inventory_id_seq (w_seqs (snd (run_call c1 w))) = inventory_id_seq (w_seqs w)) /\
  (customers (w_tables (snd (run_call c2 w))) = customers (w_tables w) /\
   customers_id_seq (w_seqs (snd (run_call c2 w))) = customers_id_seq (w_seqs w)).
Proof.
  intros Hl H1 H2.
  destruct (call_effect c1 w Hl) as (w1 & -> & _ & Ht1 & Hs1 & _).
  destruct (call_effect c2 w Hl) as (w2 & -> & _ & Ht2 & Hs2 & _).
  simpl. rewrite Ht1, Hs1, Ht2, Hs2. unfold stmt_outcome. split.
  - destruct c1; try discriminate H1; cbn [stmt_of_call]; unfold exec_stmt.
    + by destruct (insert_customer _ _ _ _ _ _ _) as [sq' [e|rows]].
    + done.
    + by destruct (update_customer_rows _ _ _ _ _ _) as [e|rows].
    + done.
  - destruct c2; try discriminate H2; cbn [stmt_of_call]; unfold exec_stmt.
    + by destruct (insert_item _ _ _ _ _ _ _) as [sq' [e|rows]].
    + done.
    + by destruct (update_item_rows _ _ _ _ _ _ _) as [e|rows].
    + done.
Qed.

Lemma calls_keep_to_their_table_witness :
  (inventory (w_tables (snd (run_call (DeleteCustomerCall 1) shop_world))) =
     inventory (w_tables shop_world) /\
   inventory_id_seq (w_seqs (snd (run_call (DeleteCustomerCall 1) shop_world))) =
     inventory_id_seq (w_seqs shop_world)) /\
  (customers (w_tables (snd (run_call (AddInventoryItem (Some "Bolt") None 1 5) shop_world))) =
     customers (w_tables shop_world) /\
   customers_id_seq (w_seqs (snd (run_call (AddInventoryItem (Some "Bolt") None 1 5)
                                             shop_world))) =
     customers_id_seq (w_seqs shop_world)).
Proof.
  apply (calls_keep_to_their_table (DeleteCustomerCall 1)
           (AddInventoryItem (Some "Bolt") None 1 5) shop_world).
  - exact live_shop_world.
  - reflexivity.
  - reflexivity.
Defined.

(** ** Reading changes nothing *)

Lemma read_only_ret {A} (a : A) : read_only (ret a).
Proof. by intros w. Qed.

Lemma read_only_raise {A} (e : exn) : read_only (@raise A e).
Proof. by intros w. Qed.

Lemma read_only_bind {A B} (m : M A) (k : A -> M B) :
  read_only m -> (forall a, read_only (k a)) -> read_only (bind m k).
Proof.
  intros Hm Hk w. unfold bind. specialize (Hm w).
  destruct (m w) as [[a|e] w1]; simpl in *; [|done].
  destruct Hm as [<- <-]. apply Hk.
Qed.

Lemma read_only_try_except {A} (m : M A) (handler : exn -> M A) :
  read_only m -> (forall e, read_only (handler e)) -> read_only (try_except m handler).
Proof.
  intros Hm Hh w. unfold try_except. specialize (Hm w).
  destruct (m w) as [[a|e] w1]; simpl in *; [done|].
  destruct Hm as [<- <-]. apply Hh.
Qed.

Lemma read_only_try_finally {A} (m : M A) (cleanup : M unit) :
  read_only m -> read_only cleanup -> read_only (try_finally m cleanup).
Proof.
  intros Hm Hc w. unfold try_finally. specialize (Hm w).
  destruct (m w) as [r w1]; simpl in *. specialize (Hc w1). destruct Hm as [<- <-].
  by destruct (cleanup w1) as [[[]|e] w2].
Qed.

Lemma read_only_display {A} (a : A) es : read_only (fun w => (Return a, display es w)).
Proof. by intros w. Qed.

Lemma read_only_connect : read_only connect.
Proof. intros w. unfold connect. by destruct (w_down w). Qed.

Lemma read_only_conn_cursor c : read_only (conn_cursor c).
Proof. intros w. unfold conn_cursor. by destruct (closed _). Qed.

Lemma read_only_rollback c : read_only (rollback c).
Proof.
  intros w. unfold rollback. destruct (closed _); [done|].
  destruct (status _); [done| |]; by destruct (w_down w).
Qed.

(** A query runs in the transaction of its connection and commits
    nothing. *)
Lemma read_only_execute c s :
  s = SelectCustomers \/ s = SelectInventory -> read_only (execute c s).
Proof.
  intros Hs w. unfold execute. destruct (closed _); [done|].
  destruct (w_down w); [done|].
  destruct (status _) as [|view|]; [| |done].
  - assert (exec_stmt s (w_seqs w) (w_tables w) = (w_seqs w, inr (w_tables w))) as ->
      by (destruct Hs; subst; reflexivity).
    done.
  - assert (exec_stmt s (w_seqs w) view = (w_seqs w, inr view)) as ->
      by (destruct Hs; subst; reflexivity).
    done.
Qed.

Lemma read_only_getconn p : read_only (getconn p).
Proof.
  intros w. unfold getconn. destruct (p_pool (w_pool w)); [|done].
  destruct (_ =? _)%nat; [done|].
  pose proof (read_only_connect w) as H. by destruct (connect w) as [[c|e] w1].
Qed.

Lemma read_only_putconn p c : read_only (putconn p c).
Proof.
  intros w. unfold putconn. destruct (negb _); [done|].
  apply read_only_bind; [|intros []; by intros w0].
  destruct (_ <? _)%nat; [|by intros w0].
  destruct (negb _); [|apply read_only_ret].
  destruct (is_idle _); [by intros w0|].
  apply read_only_bind; [apply read_only_rollback|intros []; by intros w0].
Qed.

Lemma read_only_init_connection_pool : read_only init_connection_pool.
Proof.
  intros w. unfold init_connection_pool, cache_resource.
  destruct (w_memo w) as [[v shown]|]; [done|].
  match goal with |- context [try_except ?m ?h w] =>
    assert (read_only (try_except m h)) as H end.
  { apply read_only_try_except.
    - apply read_only_bind; [|intros a; apply read_only_ret].
      apply read_only_bind; [apply read_only_connect|intros c; by intros w0].
    - intros e. apply read_only_bind; [by intros w0|intros []; apply read_only_ret]. }
  specialize (H w). by destruct (try_except _ _ w) as [[v|e] w1].
Qed.

Lemma read_only_with_connection {A} (body : option nat -> M A) :
  (forall conn, read_only (body conn)) -> read_only (with_get_db_connection body).
Proof.
  intros Hb. unfold with_get_db_connection.
  apply read_only_bind; [apply read_only_init_connection_pool|].
  intros [p|]; [|apply Hb].
  apply read_only_bind; [apply read_only_getconn|].
  intros c. apply read_only_try_finally; [apply Hb|apply read_only_putconn].
Qed.

Lemma read_only_listing s message :
  s = SelectCustomers \/ s = SelectInventory -> read_only (listing s message).
Proof.
  intros Hs. apply read_only_with_connection. intros [c|]; [|apply read_only_ret].
  apply read_only_try_except.
  - apply read_only_bind; [|intros df; apply read_only_ret].
    unfold read_sql_query.
    apply read_only_bind; [apply read_only_conn_cursor|]. intros cur.
    apply read_only_bind; [|intros []; by intros w].
    apply read_only_try_except; [by apply read_only_execute|].
    intros e. apply read_only_bind; [|intros []; apply read_only_raise].
    apply read_only_try_except; [apply read_only_rollback|intros e'; apply read_only_raise].
  - intros e. apply read_only_bind; [by intros w|intros []; apply read_only_ret].
Qed.

(** X10. The list functions and the two "View All" tabs change nothing in
    the store, in any state of the process (pool or no pool, server
    reachable or lost, whatever the connection they are handed has been
    left in) and whatever their outcome: the committed tables and the
    sequences are afterwards what they were before. *)
Theorem listing_changes_nothing :
  read_only get_all_customers /\ read_only get_all_inventory /\
  read_only customers_view_all /\ read_only inventory_view_all.
Proof.
  assert (read_only get_all_customers) as Hc
    by (rewrite get_all_customers_shape; apply read_only_listing; by left).
  assert (read_only get_all_inventory) as Hi
    by (rewrite get_all_inventory_shape; apply read_only_listing; by right).
  split; [done|]. split; [done|]. split.
  - unfold customers_view_all.
    apply read_only_bind; [by intros w|intros []].
    apply read_only_bind; [done|intros df].
    destruct (df_empty df); [by intros w|].
    apply read_only_bind; [by intros w|intros []; by intros w].
  - unfold inventory_view_all.
    apply read_only_bind; [by intros w|intros []].
    apply read_only_bind; [done|intros df].
    destruct (df_empty df); [by intros w|].
    apply read_only_bind; [by intros w|intros []].
    apply read_only_bind; [|intros []; by intros w].
    destruct (_ && _); [by intros w|apply read_only_ret].
Qed.

(** ** The constraints of the store, kept by every call *)

Lemma NoDup_map_filter {A B} (f : A -> B) (p : A -> bool) (l : list A) :
  List.NoDup (map f l) -> List.NoDup (map f (List.filter p l)).
Proof.
  induction l as [|x l IH]; simpl; intros H; [done|].
  apply List.NoDup_cons_iff in H as [Hx H].
  destruct (p x); simpl; [|by apply IH].
  constructor; [|by apply IH].
  intros Hin. apply Hx. apply in_map_iff in Hin as (y & Hy & Hin).
  apply filter_In in Hin as [Hin _]. apply in_map_iff. eauto.
Qed.

Lemma NoDup_snoc {B} (l : list B) (x : B) :
  List.NoDup l -> ~ In x l -> List.NoDup (l ++ [x]).
Proof.
  induction l as [|y l IH]; simpl; intros Hnd Hx.
  - constructor; [by intros []|constructor].
  - apply List.NoDup_cons_iff in Hnd as [Hy Hnd]. constructor.
    + rewrite in_app_iff. intros [H|[H|[]]]; [done|]. apply Hx. by left.
    + apply IH; [done|]. intros H. apply Hx. by right.
Qed.

Lemma has_email_absent email rows :
  has_email email rows = false -> ~ In email (map c_email rows).
Proof.
  intros H Hin. apply in_map_iff in Hin as (r & He & Hr).
  assert (has_email email rows = true) by (apply has_email_In; eauto). congruence.
Qed.

Lemma insert_customer_consistent name email phone city created seq rows :
  unique_ids rows -> unique_emails rows -> (forall r, In r rows -> c_id r < seq) ->
  let out := insert_customer name email phone city created seq rows in
  let rows' := match snd out with inl _ => rows | inr rows' => rows' end in
  unique_ids rows' /\ unique_emails rows' /\ (forall r, In r rows' -> c_id r < fst out).
Proof.
  intros Hids Hemails Hseq. unfold insert_customer.
  assert (forall r, In r rows -> c_id r < seq + 1) as Hseq'
    by (intros r Hr; specialize (Hseq r Hr); lia).
  destruct (customer_values name email phone city) as [e|[[[n m] p] c]]; simpl; [done|].
  destruct n as [n|], m as [m|]; simpl; try done.
  destruct (has_customer_id seq rows); simpl; [done|].
  destruct (has_email m rows) eqn:Hm; simpl; [done|].
  unfold unique_ids, unique_emails. rewrite !map_app. simpl. split; [|split].
  - apply NoDup_snoc; [done|]. intros Hin. apply in_map_iff in Hin as (r & Hr & Hin).
    specialize (Hseq r Hin). lia.
  - apply NoDup_snoc; [done|]. by apply has_email_absent.
  - intros r Hr. apply in_app_iff in Hr as [Hr|[<-|[]]]; [by apply Hseq'|]. simpl. lia.
Qed.

Lemma overwrite_emails id n m p c rows :
  unique_ids rows -> unique_emails rows ->
  has_email m (List.filter (fun r => negb (c_id r =? id)) rows) = false ->
  unique_emails (map (fun r => if c_id r =? id
                               then Customer (c_id r) n m p c (c_created_date r)
                               else r) rows).
Proof.
  unfold unique_ids, unique_emails.
  induction rows as [|r rows IH]; simpl; intros Hids Hemails Hm; [constructor|].
  apply List.NoDup_cons_iff in Hids as [Hid Hids].
  apply List.NoDup_cons_iff in Hemails as [Hemail Hemails].
  destruct (c_id r =? id) eqn:E; simpl in *.
  - apply Z.eqb_eq in E.
    assert (forall x, In x rows -> c_id x <> id) as Hothers.
    { intros x Hx Heq. apply Hid. rewrite E, <- Heq. by apply in_map. }
    assert (map (fun r0 => if c_id r0 =? id
                           then Customer (c_id r0) n m p c (c_created_date r0)
                           else r0) rows = rows) as ->.
    { rewrite <- (map_id rows) at 2. apply map_ext_in. intros x Hx.
      pose proof (Hothers x Hx) as Hne. by apply Z.eqb_neq in Hne as ->. }
    rewrite filter_all in Hm
      by (intros x Hx; apply negb_true_iff, Z.eqb_neq; by apply Hothers).
    constructor; [by apply has_email_absent|done].
  - apply orb_false_iff in Hm as [Hr Hm]. apply String.eqb_neq in Hr.
    constructor; [|by apply IH].
    intros Hin. apply in_map_iff in Hin as (y & Hy & Hin).
    apply in_map_iff in Hin as (x & <- & Hx).
    destruct (c_id x =? id); simpl in Hy; [congruence|].
    apply Hemail. rewrite <- Hy. by apply in_map.
Qed.

Lemma update_customer_rows_consistent name email phone city id rows rows' :
  unique_ids rows -> unique_emails rows ->
  update_customer_rows name email phone city id rows = inr rows' ->
  map c_id rows' = map c_id rows /\ unique_emails rows'.
Proof.
  intros Hids Hemails. unfold update_customer_rows.
  destruct (customer_values name email phone city) as [e|[[[n m] p] c]]; [done|].
  destruct (has_customer_id id rows); [|intros [= <-]; done].
  destruct n as [n|], m as [m|]; try done.
  destruct (has_email m _) eqn:Hm; [done|]. intros [= <-]. split.
  - rewrite map_map. apply map_ext. intros r. by destruct (c_id r =? id).
  - by apply overwrite_emails.
Qed.

Lemma insert_item_consistent name category quantity price now seq rows :
  List.NoDup (map i_id rows) -> (forall r, In r rows -> i_id r < seq) ->
  let out := insert_item name category quantity price now seq rows in
  let rows' := match snd out with inl _ => rows | inr rows' => rows' end in
  List.NoDup (map i_id rows') /\ (forall r, In r rows' -> i_id r < fst out).
Proof.
  intros Hids Hseq. unfold insert_item.
  assert (forall r, In r rows -> i_id r < seq + 1) as Hseq'
    by (intros r Hr; specialize (Hseq r Hr); lia).
  destruct (item_values name category quantity price) as [e|[[[n c] q] p]]; simpl; [done|].
  destruct n as [n|]; simpl; [|done].
  destruct (has_item_id seq rows); simpl; [done|].
  rewrite map_app. simpl. split.
  - apply NoDup_snoc; [done|]. intros Hin. apply in_map_iff in Hin as (r & Hr & Hin).
    specialize (Hseq r Hin). lia.
  - intros r Hr. apply in_app_iff in Hr as [Hr|[<-|[]]]; [by apply Hseq'|]. simpl. lia.
Qed.

Lemma update_item_rows_ids name category quantity price now id rows rows' :
  update_item_rows name category quantity price now id rows = inr rows' ->
  map i_id rows' = map i_id rows.
Proof.
  unfold update_item_rows.
  destruct (item_values name category quantity price) as [e|[[[n c] q] p]]; [done|].
  destruct (has_item_id id rows); [|intros [= <-]; done].
  destruct n as [n|]; [|done]. intros [= <-].
  rewrite map_map. apply map_ext. intros r. by destruct (i_id r =? id).
Qed.

Lemma ids_below {A} (f : A -> Z) (l l' : list A) (seq : Z) :
  map f l' = map f l -> (forall r, In r l -> f r < seq) -> forall r, In r l' -> f r < seq.
Proof.
  intros Hmap H r Hr. apply (in_map f) in Hr. rewrite Hmap in Hr.
  apply in_map_iff in Hr as (x & <- & Hx). by apply H.
Qed.

(** Whatever the statement and whatever its outcome, the tables left and
    the sequences satisfy the constraints if they did before. *)
Lemma exec_stmt_consistent s sq t :
  consistent t sq ->
  consistent (match snd (exec_stmt s sq t) with inl _ => t | inr t' => t' end)
             (fst (exec_stmt s sq t)).
Proof.
  intros [Hids Hemails Hitems Hcseq Hiseq].
  destruct s; unfold exec_stmt; try (by split).
  - pose proof (insert_customer_consistent name email phone city created_date _ _
                  Hids Hemails Hcseq) as H. simpl in H.
    destruct (insert_customer _ _ _ _ _ _ _) as [sq' [e|rows]]; simpl in *;
      destruct H as (? & ? & ?); by split.
  - destruct (update_customer_rows _ _ _ _ _ _) as [e|rows] eqn:E; simpl; [by split|].
    destruct (update_customer_rows_consistent _ _ _ _ _ _ _ Hids Hemails E) as [Hmap ?].
    split; simpl; try done.
    + unfold unique_ids. by rewrite Hmap.
    + by apply (ids_below c_id (customers t)).
  - split; simpl; try done.
    + by apply NoDup_map_filter.
    + by apply NoDup_map_filter.
    + intros r Hr. apply filter_In in Hr as [Hr _]. by apply Hcseq.
  - pose proof (insert_item_consistent product_name category quantity price last_updated _ _
                  Hitems Hiseq) as H. simpl in H.
    destruct (insert_item _ _ _ _ _ _ _) as [sq' [e|rows]]; simpl in *;
      destruct H as (? & ?); by split.
  - destruct (update_item_rows _ _ _ _ _ _ _) as [e|rows] eqn:E; simpl; [by split|].
    pose proof (update_item_rows_ids _ _ _ _ _ _ _ _ E) as Hmap.
    split; simpl; try done.
    + by rewrite Hmap.
    + by apply (ids_below i_id (inventory t)).
  - split; simpl; try done.
    + by apply NoDup_map_filter.
    + intros r Hr. apply filter_In in Hr as [Hr _]. by apply Hiseq.
Qed.

(** X11. The constraints of the store survive every sequence of calls.
    From a state with a working connection whose tables have no repeated
    customer id, no repeated email, no repeated item id, and only ids below
    the next values of their sequences, any number of calls of the data
    access functions, with any arguments, succeeding or failing, lead to a
    state with a working connection and tables of which the same holds. *)
Theorem store_stays_consistent (w w' : world) :
  live w ->
  consistent (w_tables w) (w_seqs w) ->
  rtc call_step w w' ->
  live w' /\ consistent (w_tables w') (w_seqs w').
Proof.
  intros Hl Hc Hsteps. induction Hsteps as [w|w w1 w2 Hstep _ IH]; [done|].
  destruct Hstep as [c w].
  destruct (call_effect c w Hl) as (w1 & Hrun & Hl1 & Ht & Hs & _).
  rewrite Hrun in IH. simpl in IH. apply IH; [done|].
  rewrite Ht, Hs. apply exec_stmt_consistent, Hc.
Qed.

Lemma store_stays_consistent_witness :
  let w1 := snd (run_call (AddCustomer (Some "Cleo") (Some "ann@example.com") None None)
                   shop_world) in
  let w2 := snd (run_call (UpdateCustomerCall 2 (Some "Bob") (Some "bob@example.org") None None)
                   w1) in
  let w3 := snd (run_call (DeleteInventoryItem 1) w2) in
  live w3 /\ consistent (w_tables w3) (w_seqs w3).
Proof.
  intros w1 w2 w3.
  apply (store_stays_consistent shop_world w3).
  - exact live_shop_world.
  - exact consistent_shop.
  - apply (rtc_l call_step shop_world w1 w3); [apply call_step_run|].
    apply (rtc_l call_step w1 w2 w3); [apply call_step_run|].
    apply (rtc_l call_step w2 w3 w3); [apply call_step_run|].
    apply rtc_refl.
Defined.

(** ** Calls that cannot get a connection *)

Lemma run_call_with_connection (c : call) :
  exists (A : Type) (f : A -> pyval) (body : option nat -> M A),
    run_call c = fmap f (with_get_db_connection body).
Proof. destruct c; eexists _, _, _; reflexivity. Qed.

Lemma with_connection_exhausted {A} (body : option nat -> M A) w shown :
  w_memo w = Some (Some ThePool, shown) ->
  p_pool (w_pool w) = [] -> length (p_used (w_pool w)) = maxconn ->
  with_get_db_connection body w =
    (Raise (Exn PoolError "connection pool exhausted"), display shown w).
Proof.
  destruct w as [down now t sq conns next [pl used] memo ui tr]; simpl.
  intros -> -> Hlen.
  unfold with_get_db_connection, bind, init_connection_pool, cache_resource, getconn; simpl.
  by rewrite Hlen.
Qed.

(** X12. A pool with all its ten connections handed out and none idle:
    every function of the data access layer raises psycopg2's PoolError
    ("connection pool exhausted") out of [get_db_connection]; it neither
    waits for a connection nor returns a failure status or an empty frame,
    and nothing but the elements stored with the pool is displayed. *)
Theorem exhausted_pool_raises (c : call) (w : world) :
  exhausted w ->
  exists shown,
    w_memo w = Some (Some ThePool, shown) /\
    run_call c w = (Raise (Exn PoolError "connection pool exhausted"), display shown w).
Proof.
  intros ([shown Hm] & Hp & Hu). exists shown. split; [done|].
  destruct (run_call_with_connection c) as (A & f & body & ->).
  by rewrite (fmap_run _ _ _ _ _ (with_connection_exhausted body w shown Hm Hp Hu)).
Qed.

Lemma exhausted_pool_raises_witness :
  let w := World None noon (Tables [bob; ann] [gadget; widget]) (Sequences 3 3) ∅ 10
             (Pool [] [9; 8; 7; 6; 5; 4; 3; 2; 1; 0]%nat) (Some (Some ThePool, [])) [] [] in
  exists shown,
    w_memo w = Some (Some ThePool, shown) /\
    run_call GetAllCustomers w =
      (Raise (Exn PoolError "connection pool exhausted"), display shown w).
Proof.
  intros w. apply (exhausted_pool_raises GetAllCustomers w).
  split; [exists []; reflexivity|]. split; reflexivity.
Defined.

Lemma with_connection_drained {A} (body : option nat -> M A) reason w :
  drained reason w ->
  with_get_db_connection body w = (Raise (Exn OperationalError reason), w).
Proof.
  destruct w as [down now t sq conns next [pl used] memo ui tr]; unfold drained; simpl.
  intros (-> & -> & -> & Hlen).
  unfold with_get_db_connection, bind, init_connection_pool, cache_resource, getconn; simpl.
  destruct (length used =? maxconn)%nat eqn:E; [apply Nat.eqb_eq in E; lia|].
  unfold connect, display; simpl. by rewrite app_nil_r.
Qed.

(** X13. The server unreachable and the pool without an idle connection:
    every function of the data access layer, the list functions included,
    raises the OperationalError of the connection that [getconn] fails to
    open; nothing is displayed and the state is as before, so that every
    further call does the same for as long as the server stays away. *)
Theorem drained_pool_raises (reason : string) (c : call) (w : world) :
  drained reason w ->
  run_call c w = (Raise (Exn OperationalError reason), w).
Proof.
  intros Hd. destruct (run_call_with_connection c) as (A & f & body & ->).
  by rewrite (fmap_run _ _ _ _ _ (with_connection_drained body reason w Hd)).
Qed.

Lemma drained_pool_raises_witness :
  let w := snd (run_call (DeleteCustomerCall 1) lost_world) in
  run_call GetAllInventory w = (Raise (Exn OperationalError "timeout"), w).
Proof.
  intros w. apply (drained_pool_raises "timeout" GetAllInventory w).
  split; [reflexivity|]. split; [reflexivity|]. split; [reflexivity|]. vm_compute. lia.
Defined.

(** ** The server lost while the pool keeps a connection *)










(** ** One connection for the life of the process *)

Ltac settled st :=
  eexists _, _, st; split; [reflexivity|]; simpl; rewrite ?lookup_insert_eq; by repeat split.

Lemma settles_mutation {A} (failed ok : A) s handler g :
  handles handler g ->
  settles (fun conn : option nat =>
    match conn with
    | None => ret failed
    | Some conn =>
        cursor <- conn_cursor conn ;;
        try_except
          (now <- datetime_now ;;
           execute cursor (s now) ;;
           commit conn ;;
           ret ok)
          (handler conn)
    end).
Proof.
  intros Hh c w Hc Hd.
  destruct w as [down now t sq conns next pl memo ui tr]; simpl in *; subst.
  unfold bind at 1, conn_cursor at 1, conn_of; simpl. rewrite Hc; simpl.
  unfold try_except, bind, datetime_now, execute, conn_of; simpl. rewrite Hc; simpl.
  destruct (exec_stmt _ _ _) as [sq' [e|v]]; simpl.
  - rewrite Hh. pyrun. settled Idle.
  - pyrun. settled Idle.
Qed.

Lemma settles_listing s message :
  settles (fun conn : option nat =>
    match conn with
    | None => ret DataFrame
    | Some conn =>
        try_except
          (df <- read_sql_query s conn ;;
           ret df)
          (fun e =>
             st_error (message +:+ exn_str e) ;;
             ret DataFrame)
    end).
Proof.
  intros c w Hc Hd.
  destruct w as [down now t sq conns next pl memo ui tr]; simpl in *; subst.
  unfold try_except at 1, bind at 1, read_sql_query, bind at 1, conn_cursor, conn_of; simpl.
  rewrite Hc; simpl.
  unfold bind, try_except, execute, conn_of; simpl. rewrite Hc; simpl.
  destruct (exec_stmt _ _ _) as [sq' [e|v]]; simpl.
  - pyrun. settled Idle.
  - pyrun. settled (InTransaction v).
Qed.

Lemma settles_init_database :
  settles (fun conn : option nat =>
    match conn with
    | None => ret tt
    | Some conn =>
        cursor <- conn_cursor conn ;;
        execute cursor CreateTables ;;
        commit conn
    end).
Proof.
  intros c w Hc Hd.
  destruct w as [down now t sq conns next pl memo ui tr]; simpl in *; subst.
  unfold bind at 1, conn_cursor at 1, conn_of; simpl. rewrite Hc; simpl.
  unfold bind, execute, conn_of; simpl. rewrite Hc; simpl.
  unfold exec_stmt; simpl. pyrun. settled Idle.
Qed.

Lemma run_call_settles (c : call) :
  exists (A : Type) (f : A -> pyval) (body : option nat -> M A),
    run_call c = fmap f (with_get_db_connection body) /\ settles body.
Proof.
  destruct c; eexists _, _, _; (split; [reflexivity|]).
  - apply (settles_mutation _ _ _ _ _ handles_add_customer).
  - apply settles_listing.
  - apply (settles_mutation _ _ (fun _ => _) _ _ (handles_rollback error_pair)).
  - apply (settles_mutation _ _ (fun _ => _) _ _ (handles_rollback error_text)).
  - apply (settles_mutation _ _ _ _ _ (handles_rollback error_text)).
  - apply settles_listing.
  - apply (settles_mutation _ _ (fun now => _) _ _ (handles_rollback error_text)).
  - apply (settles_mutation _ _ (fun _ => _) _ _ (handles_rollback error_text)).
  - apply settles_init_database.
Qed.

(** The connection goes back to a pool that keeps none. *)
Lemma putconn_kept c st w used :
  w_pool w = Pool [] (c :: used) ->
  w_conns w !! c = Some (Connection false st) -> w_down w = None ->
  exists w',
    putconn ThePool c w = (Return tt, w') /\
    w_pool w' = Pool [c] used /\
    w_conns w' !! c = Some (Connection false Idle) /\
    w_down w' = None /\ w_memo w' = w_memo w /\ w_next_conn w' = w_next_conn w.
Proof.
  intros Hp Hc Hd.
  destruct w as [down now t sq conns next pl memo ui tr]; simpl in *; subst.
  unfold putconn; simpl. rewrite Nat.eqb_refl; simpl.
  unfold conn_of; simpl. rewrite Hc; simpl.
  destruct st; pyrun; rewrite ?Hc; pyrun; (eexists; split; [reflexivity|]); simpl;
    rewrite ?lookup_insert_eq; by repeat split.
Qed.

Lemma with_connection_pooled {A} (body : option nat -> M A) c w :
  settles body -> pooled c w ->
  exists r w',
    with_get_db_connection body w = (r, w') /\
    pooled c w' /\ w_next_conn w' = w_next_conn w /\ w_pool w' = w_pool w.
Proof.
  intros Hb (Hd & Hm & Hp & Hc).
  destruct w as [down now t sq conns next [pl used] memo ui tr]; simpl in *; subst.
  unfold with_get_db_connection, bind, init_connection_pool, cache_resource, getconn; simpl.
  match goal with |- context [try_finally _ _ ?w1] =>
    destruct (Hb c w1 Hc eq_refl) as (r & w2 & st & Hrun & Hp2 & Hn2 & Hm2 & Hd2 & Hc2) end.
  destruct (putconn_kept c st w2 used Hp2 Hc2 Hd2) as (w3 & Hput & Hp3 & Hc3 & Hd3 & Hm3 & Hn3).
  unfold try_finally. rewrite Hrun, Hput. exists r, w3. split; [done|].
  split; [|split; [by rewrite Hn3, Hn2|done]].
  split; [done|]. split; [by rewrite Hm3, Hm2|]. split; [by rewrite Hp3|done].
Qed.

Lemma with_connection_first {A} (body : option nat -> M A) w :
  settles body -> w_memo w = None -> w_down w = None ->
  exists r w',
    with_get_db_connection body w = (r, w') /\
    pooled (w_next_conn w) w' /\ w_next_conn w' = S (w_next_conn w) /\
    w_pool w' = Pool [w_next_conn w] [].
Proof.
  intros Hb Hm Hd.
  destruct w as [down now t sq conns next [pl used] memo ui tr]; simpl in *; subst.
  unfold with_get_db_connection, bind at 1, init_connection_pool, cache_resource; simpl.
  unfold bind at 1, getconn; simpl. rewrite drop_all.
  match goal with |- context [try_finally _ _ ?w1] =>
    destruct (Hb next w1) as (r & w2 & st & Hrun & Hp2 & Hn2 & Hm2 & Hd2 & Hc2);
      [simpl; by rewrite lookup_insert_eq|done|] end.
  destruct (putconn_kept next st w2 [] Hp2 Hc2 Hd2)
    as (w3 & Hput & Hp3 & Hc3 & Hd3 & Hm3 & Hn3).
  unfold try_finally. rewrite Hrun, Hput. exists r, w3. split; [done|].
  split; [|split; [by rewrite Hn3, Hn2|done]].
  split; [done|]. split; [by rewrite Hm3, Hm2|]. split; [by rewrite Hp3|done].
Qed.

(** X16. The process opens one connection and uses it for every call.
    Started with the server reachable, the first call of the data access
    layer, whichever it is, creates the pool with a single connection and
    leaves it idle in the pool; from then on every sequence of calls, of any
    functions with any arguments, succeeding or failing, leaves the pool
    with that same connection, open and idle, and opens no other. *)
Theorem one_connection_serves_all (c0 : call) (w w' : world) :
  w_memo w = None -> w_down w = None ->
  rtc call_step (snd (run_call c0 w)) w' ->
  pooled (w_next_conn w) w' /\
  w_next_conn w' = S (w_next_conn w) /\
  w_pool w' = Pool [w_next_conn w] [].
Proof.
  intros Hm Hd Hsteps.
  destruct (run_call_settles c0) as (A & f & body & Hc0 & Hb).
  destruct (with_connection_first body w Hb Hm Hd) as (r & w1 & Hrun & Hp & Hn & Hpool).
  rewrite Hc0, (fmap_run _ _ _ _ _ Hrun) in Hsteps. simpl in Hsteps.
  rewrite <- Hn, <- Hpool. clear Hrun Hn Hpool Hc0 Hb.
  induction Hsteps as [w1|w1 w2 w3 Hstep _ IH]; [done|].
  destruct Hstep as [c w1].
  destruct (run_call_settles c) as (B & g & body' & Hc & Hb').
  destruct (with_connection_pooled body' _ w1 Hb' Hp) as (r' & w2 & Hrun & Hp2 & Hn2 & Hpool2).
  rewrite Hc, (fmap_run _ _ _ _ _ Hrun) in IH. simpl in IH.
  rewrite <- Hn2, <- Hpool2. by apply IH.
Qed.

Lemma one_connection_serves_all_witness :
  let w1 := snd (run_call InitDatabase fresh_world) in
  let w2 := snd (run_call (AddCustomer (Some "Ann") None None None) w1) in
  let w3 := snd (run_call GetAllInventory w2) in
  pooled (w_next_conn fresh_world) w3 /\
  w_next_conn w3 = S (w_next_conn fresh_world) /\
  w_pool w3 = Pool [w_next_conn fresh_world] [].
Proof.
  intros w1 w2 w3.
  apply (one_connection_serves_all InitDatabase fresh_world w3).
  - reflexivity.
  - reflexivity.
  - apply (rtc_l call_step w1 w2 w3); [apply call_step_run|].
    apply (rtc_l call_step w2 w3 w3); [apply call_step_run|].
    apply rtc_refl.
Defined.

(** ** The forms *)

(** X17. The two "Add New" forms check their required fields before
    anything else.  Submitted with an empty name or an empty email, the
    customer form displays "Name and Email are required!"; submitted with an
    empty product name, the inventory form displays "Product name is
    required!".  In any state of the process, the message is all that
    happens: no pool is created, no connection taken, no statement sent,
    and the script runs on. *)
Theorem add_forms_check_required_fields (w : world) (name email phone city category : string)
    (quantity price : Z) :
  name = EmptyString \/ email = EmptyString ->
  add_customer_form name email phone city true w =
    (Return RunsOn, display [StError "Name and Email are required!"] w) /\
  add_inventory_form EmptyString category quantity price true w =
    (Return RunsOn, display [StError "Product name is required!"] w).
Proof.
  intros H. split; [|reflexivity].
  unfold add_customer_form.
  assert (truthy name && truthy email = false) as ->; [|reflexivity].
  destruct H as [-> | ->]; [reflexivity|]. by destruct name.
Qed.

Lemma add_forms_check_required_fields_witness :
  add_customer_form "Ann" EmptyString "555-0100" "Paris" true shop_world =
    (Return RunsOn, display [StError "Name and Email are required!"] shop_world) /\
  add_inventory_form EmptyString "Hardware" 10 250 true shop_world =
    (Return RunsOn, display [StError "Product name is required!"] shop_world).
Proof.
  apply (add_forms_check_required_fields shop_world "Ann" EmptyString "555-0100" "Paris"
           "Hardware" 10 250).
  right. reflexivity.
Defined.

(** X18. The two customer forms tell a failure from a success.  On a
    working connection, submitted with a name and an email: each form
    reruns the script exactly when its statement succeeds; when the
    statement fails, it displays the message of the function as an error
    ("Email already exists!" for every IntegrityError of the INSERT,
    "Error: " and the text of the exception otherwise) and the script runs
    on. *)
Theorem customer_forms_show_the_failure (w : world) (customer_id : Z)
    (name email phone city : string) :
  live w ->
  truthy name = true -> truthy email = true ->
  let ins := snd (stmt_outcome
                    (InsertCustomer (Some name) (Some email) (Some phone) (Some city)) w) in
  let upd := snd (stmt_outcome
                    (fun _ => UpdateCustomer (Some name) (Some email) (Some phone) (Some city)
                                customer_id) w) in
  exists w1 w2,
    add_customer_form name email phone city true w =
      (Return (match ins with
               | inr _ => Reruns "Customer added successfully!"
               | inl _ => RunsOn
               end), w1) /\
    w_ui w1 = w_ui w ++ match ins with
                        | inr _ => []
                        | inl e => [StError (snd (add_customer_result e))]
                        end /\
    update_customer_form customer_id name email phone city true w =
      (Return (match upd with
               | inr _ => Reruns "Customer updated successfully!"
               | inl _ => RunsOn
               end), w2) /\
    w_ui w2 = w_ui w ++ match upd with
                        | inr _ => []
                        | inl e => [StError ("Error: " +:+ exn_str e)]
                        end.
Proof.
  intros Hl Hn He ins upd.
  destruct (mutation_live (false, "Database connection failed")
              (true, "Customer added successfully!")
              (InsertCustomer (Some name) (Some email) (Some phone) (Some city)) _ _ w
              handles_add_customer Hl) as (w1 & Hrun1 & _ & _ & _ & Hui1 & _).
  destruct (mutation_live (false, "Database connection failed")
              (true, "Customer updated successfully!")
              (fun _ => UpdateCustomer (Some name) (Some email) (Some phone) (Some city)
                          customer_id) _ _ w
              (handles_rollback error_pair) Hl) as (w2 & Hrun2 & _ & _ & _ & Hui2 & _).
  fold ins in Hrun1. fold upd in Hrun2.
  rewrite <- add_customer_shape in Hrun1. rewrite <- update_customer_shape in Hrun2.
  unfold add_customer_form, update_customer_form. rewrite Hn, He. change (true && true) with true. cbv iota.
  unfold bind. rewrite Hrun1, Hrun2.
  exists (match ins with inr _ => w1 | inl e => display [StError (snd (add_customer_result e))] w1
          end),
         (match upd with inr _ => w2 | inl e => display [StError ("Error: " +:+ exn_str e)] w2
          end).
  destruct ins as [e1|t1], upd as [e2|t2]; unfold add_customer_result, error_pair;
    try destruct (is_IntegrityError e1); simpl; rewrite ?Hui1, ?Hui2, ?app_nil_r;
    by repeat split.
Qed.

Lemma customer_forms_show_the_failure_witness :
  let ins := snd (stmt_outcome
                    (InsertCustomer (Some "Bobby") (Some "bob@example.com") (Some EmptyString)
                       (Some "Oslo")) shop_world) in
  let upd := snd (stmt_outcome
                    (fun _ => UpdateCustomer (Some "Bobby") (Some "bob@example.com")
                                (Some EmptyString) (Some "Oslo") 2) shop_world) in
  exists w1 w2,
    add_customer_form "Bobby" "bob@example.com" EmptyString "Oslo" true shop_world =
      (Return (match ins with
               | inr _ => Reruns "Customer added successfully!"
               | inl _ => RunsOn
               end), w1) /\
    w_ui w1 = w_ui shop_world ++ match ins with
                                 | inr _ => []
                                 | inl e => [StError (snd (add_customer_result e))]
                                 end /\
    update_customer_form 2 "Bobby" "bob@example.com" EmptyString "Oslo" true shop_world =
      (Return (match upd with
               | inr _ => Reruns "Customer updated successfully!"
               | inl _ => RunsOn
               end), w2) /\
    w_ui w2 = w_ui shop_world ++ match upd with
                                 | inr _ => []
                                 | inl e => [StError ("Error: " +:+ exn_str e)]
                                 end.
Proof.
  apply (customer_forms_show_the_failure shop_world 2 "Bobby" "bob@example.com" EmptyString
           "Oslo").
  - exact live_shop_world.
  - reflexivity.
  - reflexivity.
Defined.

(** On the two states above: the add form displays the duplicate, the
    update form (of the row that has the email) reruns. *)
Example customer_forms_on_a_duplicate :
  fst (add_customer_form "Bobby" "bob@example.com" EmptyString "Oslo" true shop_world) =
    Return RunsOn /\
  w_ui (snd (add_customer_form "Bobby" "bob@example.com" EmptyString "Oslo" true shop_world)) =
    [StError "Email already exists!"] /\
  fst (update_customer_form 2 "Bobby" "bob@example.com" EmptyString "Oslo" true shop_world) =
    Return (Reruns "Customer updated successfully!").
Proof. repeat split; reflexivity. Qed.

(** X19. The inventory forms do not tell a failure from a success.  On a
    working connection, whatever its statement does, each of the two forms
    hands the message of its function to [st.success] and reruns the
    script; when the statement fails that message is "Error: " and the text
    of the exception, nothing is displayed as an error, and the tables are
    as before. *)
Theorem inventory_forms_announce_every_message (w : world) (item_id : Z)
    (product_name category : string) (quantity price : Z) :
  live w ->
  truthy product_name = true ->
  let ins := snd (stmt_outcome
                    (InsertInventory (Some product_name) (Some category) quantity price) w) in
  let upd := snd (stmt_outcome
                    (fun now => UpdateInventory (Some product_name) (Some category) quantity
                                  price now item_id) w) in
  exists w1 w2,
    add_inventory_form product_name category quantity price true w =
      (Return (Reruns (match ins with
                       | inr _ => "Inventory item added successfully!"
                       | inl e => "Error: " +:+ exn_str e
                       end)), w1) /\
    w_ui w1 = w_ui w /\
    w_tables w1 = match ins with inr t => t | inl _ => w_tables w end /\
    update_inventory_form item_id product_name category quantity price true w =
      (Return (Reruns (match upd with
                       | inr _ => "Inventory item updated successfully!"
                       | inl e => "Error: " +:+ exn_str e
                       end)), w2) /\
    w_ui w2 = w_ui w /\
    w_tables w2 = match upd with inr t => t | inl _ => w_tables w end.
Proof.
  intros Hl Hn ins upd.
  destruct (mutation_live "Database connection failed" "Inventory item added successfully!"
              (InsertInventory (Some product_name) (Some category) quantity price) _ _ w
              (handles_rollback error_text) Hl) as (w1 & Hrun1 & _ & Ht1 & _ & Hui1 & _).
  destruct (mutation_live "Database connection failed" "Inventory item updated successfully!"
              (fun now => UpdateInventory (Some product_name) (Some category) quantity price
                            now item_id) _ _ w
              (handles_rollback error_text) Hl) as (w2 & Hrun2 & _ & Ht2 & _ & Hui2 & _).
  fold ins in Hrun1, Ht1. fold upd in Hrun2, Ht2.
  unfold add_inventory_form, update_inventory_form. rewrite Hn. cbv iota.
  unfold bind. rewrite add_inventory_item_shape, update_inventory_item_shape, Hrun1, Hrun2.
  exists w1, w2. unfold st_success_rerun, ret, error_text.
  destruct ins as [e1|t1], upd as [e2|t2]; by repeat split.
Qed.

Lemma inventory_forms_announce_every_message_witness :
  let ins := snd (stmt_outcome
                    (InsertInventory (Some "Bolt") (Some "Hardware") 3000000000 5)
                    shop_world) in
  let upd := snd (stmt_outcome
                    (fun now => UpdateInventory (Some "Bolt") (Some "Hardware") 3000000000 5
                                  now 1) shop_world) in
  exists w1 w2,
    add_inventory_form "Bolt" "Hardware" 3000000000 5 true shop_world =
      (Return (Reruns (match ins with
                       | inr _ => "Inventory item added successfully!"
                       | inl e => "Error: " +:+ exn_str e
                       end)), w1) /\
    w_ui w1 = w_ui shop_world /\
    w_tables w1 = match ins with inr t => t | inl _ => w_tables shop_world end /\
    update_inventory_form 1 "Bolt" "Hardware" 3000000000 5 true shop_world =
      (Return (Reruns (match upd with
                       | inr _ => "Inventory item updated successfully!"
                       | inl e => "Error: " +:+ exn_str e
                       end)), w2) /\
    w_ui w2 = w_ui shop_world /\
    w_tables w2 = match upd with inr t => t | inl _ => w_tables shop_world end.
Proof.
  apply (inventory_forms_announce_every_message shop_world 1 "Bolt" "Hardware" 3000000000 5).
  - exact live_shop_world.
  - reflexivity.
Defined.

(** A quantity that does not fit INTEGER: the form announces the error as
    a success. *)
Example inventory_form_on_a_failure :
  fst (add_inventory_form "Bolt" "Hardware" 3000000000 5 true shop_world) =
    Return (Reruns ("Error: integer out of range" +:+ newline)) /\
  w_ui (snd (add_inventory_form "Bolt" "Hardware" 3000000000 5 true shop_world)) = [] /\
  w_tables (snd (add_inventory_form "Bolt" "Hardware" 3000000000 5 true shop_world)) =
    w_tables shop_world.
Proof. repeat split; reflexivity. Qed.



Lemma fits_notna_or_empty n v : fits n v -> fits n (Some (notna_or_empty v)).
Proof. destruct v; simpl; [done|lia]. Qed.

(** X21. The update form submitted as it was opened.  On a working
    connection, for a row [r] of a table with unique ids and emails: the
    form starts with the name and the email of the row, and with its phone
    and city, or the empty text where they are NULL; submitted with these
    texts the form reruns with the success message, and the table then
    holds, in place of [r], the row with the same id, name, email and
    created_date whose phone and city are those texts: a NULL has become
    an empty string.  The rows of other ids are unchanged. *)
Theorem update_form_submitted_untouched (w : world) (r : customer)
    (name email phone city : string) :
  live w ->
  unique_ids (customers (w_tables w)) ->
  unique_emails (customers (w_tables w)) ->
  In r (customers (w_tables w)) ->
  fits 255 (Some (c_name r)) -> fits 255 (Some (c_email r)) ->
  fits 50 (c_phone r) -> fits 100 (c_city r) ->
  update_customer_defaults r = (name, email, phone, city) ->
  exists w',
    update_customer_form (c_id r) name email phone city true w =
      (Return (Reruns "Customer updated successfully!"), w') /\
    (forall x, In x (customers (w_tables w')) <->
               x = without_nulls r \/
               (In x (customers (w_tables w)) /\ c_id x <> c_id r)).
Proof.
  intros Hl Hids Hemails Hin Hn He Hp Hc [= <- <- <- <-].
  assert (forall x, In x (customers (w_tables w)) -> c_id x <> c_id r ->
                    c_email x <> c_email r) as Hfree.
  { intros x Hx Hne Heq. apply Hne. f_equal. by apply (NoDup_map_eq c_email _ x r Hemails). }
  destruct (mutation_live (false, "Database connection failed")
              (true, "Customer updated successfully!")
              (fun _ => UpdateCustomer (Some (c_name r)) (Some (c_email r))
                          (Some (notna_or_empty (c_phone r)))
                          (Some (notna_or_empty (c_city r))) (c_id r)) _ _ w
              (handles_rollback error_pair) Hl) as (w' & Hrun & _ & Ht & _).
  unfold stmt_outcome, exec_stmt in Hrun, Ht.
  rewrite (update_customer_rows_overwrite r _ _ _ _ _ Hin Hfree Hn He
             (fits_notna_or_empty _ _ Hp) (fits_notna_or_empty _ _ Hc)) in Hrun, Ht.
  simpl in Hrun, Ht.
  exists w'. split.
  - unfold update_customer_form, bind. by rewrite update_customer_shape, Hrun.
  - rewrite Ht. simpl. intros x. rewrite in_map_iff. split.
    + intros (y & <- & Hy). destruct (c_id y =? c_id r) eqn:E.
      * left. apply Z.eqb_eq in E.
        by rewrite (NoDup_map_eq c_id _ y r Hids Hy Hin E).
      * right. split; [done|]. by apply Z.eqb_neq.
    + intros [-> | [Hx Hne]].
      * exists r. split; [|done]. by rewrite Z.eqb_refl.
      * exists x. split; [|done]. by apply Z.eqb_neq in Hne as ->.
Qed.

Lemma update_form_submitted_untouched_witness :
  exists w',
    update_customer_form (c_id bob) "Bob" "bob@example.com" EmptyString "Oslo" true
      shop_world = (Return (Reruns "Customer updated successfully!"), w') /\
    (forall x, In x (customers (w_tables w')) <->
               x = without_nulls bob \/
               (In x (customers (w_tables shop_world)) /\ c_id x <> c_id bob)).
Proof.
  apply (update_form_submitted_untouched shop_world bob "Bob" "bob@example.com" EmptyString
           "Oslo").
  - exact live_shop_world.
  - exact unique_ids_shop.
  - exact unique_emails_shop.
  - simpl. left. reflexivity.
  - simpl. lia.
  - simpl. lia.
  - exact I.
  - simpl. lia.
  - reflexivity.
Defined.

(** Bob's phone was NULL; after the untouched form it is the empty
    string. *)
Example untouched_form_changes_bob :
  c_phone bob = None /\
  map c_phone (customers (w_tables (snd (update_customer_form (c_id bob) "Bob"
                                           "bob@example.com" EmptyString "Oslo" true
                                           shop_world)))) =
    [Some EmptyString; Some "555-0100"].
Proof. split; reflexivity. Qed.

(** ** The "View All" tabs when the query fails *)

Lemma no_pool_display reason es w : no_pool reason w -> no_pool reason (display es w).
Proof. by destruct w. Qed.

Lemma lost_display reason es w : lost reason w -> lost reason (display es w).
Proof. by destruct w. Qed.

Lemma listing_fails s message reason w :
  no_pool reason w \/ lost reason w ->
  exists w' msg,
    listing s message w = (Return DataFrame, w') /\
    w_ui w' = w_ui w ++ [StError msg] /\
    w_tables w' = w_tables w.
Proof.
  intros [H|H].
  - exists (refused reason w), ("Error connecting to database: " +:+ reason).
    split; [by apply listing_no_pool|]. by destruct w.
  - by apply (listing_lost s message reason).
Qed.

(** X22. The "View All" tabs when their query cannot be run (no pool, or
    the server lost under the pool's connection): whatever the tables hold,
    each tab displays its heading, the error, and then the note for an empty
    table ("No customers found. Add your first customer!", "No inventory
    items found. Add your first product!"); it displays no table, no total
    and no download button, and stores nothing. *)
Theorem view_all_when_the_query_fails (reason : string) (w : world) :
  no_pool reason w \/ lost reason w ->
  exists w1 w2 msg1 msg2,
    customers_view_all w = (Return tt, w1) /\
    w_ui w1 = w_ui w ++
      [StSubheader "All Customers"; StError msg1;
       StInfo "No customers found. Add your first customer!"] /\
    w_tables w1 = w_tables w /\
    inventory_view_all w = (Return tt, w2) /\
    w_ui w2 = w_ui w ++
      [StSubheader "All Inventory Items"; StError msg2;
       StInfo "No inventory items found. Add your first product!"] /\
    w_tables w2 = w_tables w.
Proof.
  intros H.
  assert (forall es, no_pool reason (display es w) \/ lost reason (display es w)) as H'.
  { intros es. destruct H; [left; by apply no_pool_display|right; by apply lost_display]. }
  destruct (listing_fails SelectCustomers "Error fetching customers: " reason _
              (H' [StSubheader "All Customers"])) as (w1 & msg1 & Hrun1 & Hui1 & Ht1).
  destruct (listing_fails SelectInventory "Error fetching inventory: " reason _
              (H' [StSubheader "All Inventory Items"])) as (w2 & msg2 & Hrun2 & Hui2 & Ht2).
  assert (exists w1', customers_view_all w = (Return tt, w1') /\
            w_ui w1' = w_ui w1 ++ [StInfo "No customers found. Add your first customer!"] /\
            w_tables w1' = w_tables w1) as (w1' & Hv1 & Hvu1 & Hvt1).
  { unfold customers_view_all, bind at 1, st_subheader. unfold bind at 1.
    rewrite get_all_customers_shape, Hrun1. simpl. by eexists. }
  assert (exists w2', inventory_view_all w = (Return tt, w2') /\
            w_ui w2' = w_ui w2 ++ [StInfo "No inventory items found. Add your first product!"] /\
            w_tables w2' = w_tables w2) as (w2' & Hv2 & Hvu2 & Hvt2).
  { unfold inventory_view_all, bind at 1, st_subheader. unfold bind at 1.
    rewrite get_all_inventory_shape, Hrun2. simpl. by eexists. }
  exists w1', w2', msg1, msg2.
  rewrite Hvu1, Hvu2, Hvt1, Hvt2, Hui1, Hui2, Ht1, Ht2.
  destruct w; simpl; rewrite <- !app_assoc; by repeat split.
Qed.

Lemma view_all_when_the_query_fails_witness :
  exists w1 w2 msg1 msg2,
    customers_view_all stranded_world = (Return tt, w1) /\
    w_ui w1 = w_ui stranded_world ++
      [StSubheader "All Customers"; StError msg1;
       StInfo "No customers found. Add your first customer!"] /\
    w_tables w1 = w_tables stranded_world /\
    inventory_view_all stranded_world = (Return tt, w2) /\
    w_ui w2 = w_ui stranded_world ++
      [StSubheader "All Inventory Items"; StError msg2;
       StInfo "No inventory items found. Add your first product!"] /\
    w_tables w2 = w_tables stranded_world.
Proof.
  apply (view_all_when_the_query_fails "could not connect to server" stranded_world).
  left. exact no_pool_stranded_world.
Defined.

(** ** What the export keeps *)

(** X23. The export does not tell NULL from the empty string.  The text
    [to_csv(index=False)] writes for a frame of customers is the same
    whether a phone or a city is NULL or the empty string: both are written
    as an empty field. *)
Theorem export_writes_null_as_empty (l : list customer) :
  to_csv (Frame customers_columns (map customer_cells (map without_nulls l))) =
  to_csv (Frame customers_columns (map customer_cells l)).
Proof.
  unfold to_csv, csv_records. simpl. do 2 f_equal.
  rewrite !map_map. apply map_ext. intros r. unfold customer_cells, without_nulls. simpl.
  by destruct (c_phone r), (c_city r).
Qed.
